(** * ksef-cli: incremental invoice fetching from KSeF

    A shallow embedding of [crypto.py], [client.py] and [fetch_invoices.py]
    and the properties of the synchronisation core: symmetric decryption
    with PKCS#7 stripping, the two polling loops, the continuation point,
    deduplication and the persistence of the state file; and of the choice
    of the stylesheet in [transform_invoices.py]. *)

From Stdlib Require Import ZArith Ascii String DecimalString.
From Stdlib.Strings Require Import Byte.
From stdpp Require Import base option list gmap strings.

Local Open Scope string_scope.

(** ** Exceptions and results

    Python exceptions that the embedded code can raise.  [Exception] is the
    bare [Exception(msg)] the sources raise themselves; the others come
    from the interpreter or from the libraries the code calls. *)

Inductive exn : Type :=
  | Exception (msg : string)
  | HTTPError
  | ValueError
  | IndexError
  | KeyError
  | TypeError
  | BadZipFile
  | JSONDecodeError.

Inductive result (A : Type) : Type :=
  | Ok (a : A)
  | Raise (e : exn).
Arguments Ok {A} a.
Arguments Raise {A} e.

(** ** Python sequence helpers *)

Section PySeq.
Context {A : Type}.

(** [l[-1]]: the last element; [None] stands for [IndexError]. *)
Definition py_last (l : list A) : option A := last l.

(** [l[:-n]] for [n >= 0].  Python reads [-0] as [0], so [l[:-0]] is
    [l[:0]], the empty sequence; for [n > len(l)] the slice is empty. *)
Definition py_slice_to_neg (n : nat) (l : list A) : list A :=
  match n with
  | O => []
  | S _ => take (length l - n) l
  end.

Fixpoint chunks_fuel (fuel n : nat) (l : list A) : list (list A) :=
  match fuel with
  | O => []
  | S fuel' =>
      match l with
      | [] => []
      | _ => take n l :: chunks_fuel fuel' n (drop n l)
      end
  end.

(** Consecutive blocks of [n] elements. *)
Definition chunks (n : nat) (l : list A) : list (list A) :=
  chunks_fuel (length l) n l.
End PySeq.

(** ** Python string helpers *)

(** Truthiness of a string, and of the result of [dict.get]: an absent key,
    [None] and the empty string are all false. *)
Definition str_truthy (s : string) : bool := negb (String.eqb s "").

Definition get_truthy (o : option string) : bool :=
  match o with
  | Some s => str_truthy s
  | None => false
  end.

(** [s.endswith(suffix)] *)
Definition endswith (s suffix : string) : bool :=
  let n := String.length s in
  let k := String.length suffix in
  (k <=? n)%nat && String.eqb (substring (n - k) k s) suffix.

(** [s.replace(old, new)] for a non-empty [old]: every occurrence, scanning
    from the left without overlap.  [skip] counts the characters of a
    matched occurrence that are still to be dropped. *)
Fixpoint replace_from (old new : string) (skip : nat) (s : string) : string :=
  match s with
  | EmptyString => EmptyString
  | String c s' =>
      match skip with
      | S k => replace_from old new k s'
      | O =>
          if String.prefix old s
          then new ++ replace_from old new (String.length old - 1) s'
          else String c (replace_from old new 0 s')
      end
  end.

Definition py_replace (old new s : string) : string := replace_from old new 0 s.

(** [str(n)] for a non-negative and for an arbitrary integer. *)
Definition str_nat (n : nat) : string := NilZero.string_of_uint (Nat.to_uint n).
Definition str_Z (z : Z) : string := NilZero.string_of_int (Z.to_int z).

Fixpoint zeros (n : nat) : string :=
  match n with
  | O => EmptyString
  | S n' => String "0"%char (zeros n')
  end.

(** The [%0<width>d] formatting of a non-negative number. *)
Definition zfill (width n : nat) : string :=
  let s := str_nat n in zeros (width - String.length s) ++ s.

(** ** datetime

    Only aware datetimes in UTC occur ([datetime.now(timezone.utc)]), so
    the time zone is not a field. *)

Record datetime : Type := {
  year : nat;
  month : nat;
  day : nat;
  hour : nat;
  minute : nat;
  second : nat;
  microsecond : nat
}.

(** [now.replace(day=1, hour=0, minute=0, second=0, microsecond=0)] *)
Definition replace_to_month_start (now : datetime) : datetime :=
  {| year := year now; month := month now; day := 1;
     hour := 0; minute := 0; second := 0; microsecond := 0 |}.

(** [dt.isoformat()] of a UTC datetime: the fraction is printed only when
    the microsecond is not zero. *)
Definition isoformat (dt : datetime) : string :=
  zfill 4 (year dt) ++ "-" ++ zfill 2 (month dt) ++ "-" ++ zfill 2 (day dt)
  ++ "T" ++ zfill 2 (hour dt) ++ ":" ++ zfill 2 (minute dt) ++ ":" ++ zfill 2 (second dt)
  ++ (if (microsecond dt =? 0)%nat then "" else "." ++ zfill 6 (microsecond dt))
  ++ "+00:00".

(** ** crypto.py *)

Module Crypto.

Definition block_size : nat := 16.

Definition bits8 : Type := bool * (bool * (bool * (bool * (bool * (bool * (bool * bool)))))).

Definition xor_bits (x y : bits8) : bits8 :=
  let '(a0, (a1, (a2, (a3, (a4, (a5, (a6, a7))))))) := x in
  let '(b0, (b1, (b2, (b3, (b4, (b5, (b6, b7))))))) := y in
  (xorb a0 b0, (xorb a1 b1, (xorb a2 b2, (xorb a3 b3,
    (xorb a4 b4, (xorb a5 b5, (xorb a6 b6, xorb a7 b7))))))).

Definition xor_byte (a b : byte) : byte :=
  Byte.of_bits (xor_bits (Byte.to_bits a) (Byte.to_bits b)).

Fixpoint xor_bytes (a b : list byte) : list byte :=
  match a, b with
  | x :: a', y :: b' => xor_byte x y :: xor_bytes a' b'
  | _, _ => []
  end.

Section Cipher.
(** The AES block transformation of the [cryptography] package: the
    decryption of one 16-byte block under a key. *)
Variable aes_block_decrypt : list byte -> list byte -> list byte.

(** CBC chaining as the decryptor performs it:
    [P_i = D_k(C_i) xor C_(i-1)], with [C_0 = iv]. *)
Fixpoint cbc_decrypt_blocks (key prev : list byte) (blocks : list (list byte))
  : list byte :=
  match blocks with
  | [] => []
  | c :: rest =>
      xor_bytes (aes_block_decrypt key c) prev ++ cbc_decrypt_blocks key c rest
  end.

(** [algorithms.AES(key)] with [modes.CBC(iv)] accepts keys of 128, 192
    and 256 bits and an IV of one block. *)
Definition valid_key (key : list byte) : bool :=
  (length key =? 16)%nat || (length key =? 24)%nat || (length key =? 32)%nat.

Definition valid_iv (iv : list byte) : bool := (length iv =? block_size)%nat.

(** [decryptor.update(data) + decryptor.finalize()]: [finalize] raises
    [ValueError] when the data is not a whole number of blocks. *)
Definition cbc_decrypt (key iv data : list byte) : result (list byte) :=
  if negb (valid_key key) then Raise ValueError
  else if negb (valid_iv iv) then Raise ValueError
  else if negb (length data mod block_size =? 0)%nat then Raise ValueError
  else Ok (cbc_decrypt_blocks key iv (chunks block_size data)).

(** [Crypto.decrypt_aes] *)
Definition decrypt_aes (encrypted_data key iv : list byte) : result (list byte) :=
  match cbc_decrypt key iv encrypted_data with
  | Raise e => Raise e
  | Ok decrypted =>
      (* Usuń padding PKCS7 *)
      match py_last decrypted with
      | None => Raise IndexError
      | Some padding_length =>
          Ok (py_slice_to_neg (Byte.to_nat padding_length) decrypted)
      end
  end.
End Cipher.

Section PublicKey.
(** [public_key.encrypt(data, OAEP(MGF1(SHA256), SHA256, label=None))]
    followed by [base64.b64encode(...).decode('utf-8')], under the two
    public keys that [_fetch_public_keys] selected at construction. *)
Variable oaep_b64_token_key : list byte -> string.
Variable oaep_b64_symmetric_key : list byte -> string.

(** [Crypto.encrypt_token] *)
Definition encrypt_token (ksef_token : string) (timestamp_ms : Z) : string :=
  let token_with_timestamp := ksef_token ++ "|" ++ str_Z timestamp_ms in
  oaep_b64_token_key (list_byte_of_string token_with_timestamp).

(** [Crypto.encrypt_symmetric_key] *)
Definition encrypt_symmetric_key (symmetric_key : list byte) : string :=
  oaep_b64_symmetric_key symmetric_key.
End PublicKey.

(** *** The encryption side, used as the fixture of the round trip *)

Definition byte_of_nat (n : nat) : byte :=
  match Byte.of_nat n with
  | Some b => b
  | None => x00
  end.

(** PKCS#7: append [p] bytes of value [p], [p = 16 - len mod 16]. *)
Definition pkcs7_pad (data : list byte) : list byte :=
  let p := (block_size - length data mod block_size)%nat in
  data ++ replicate p (byte_of_nat p).

Section Fixture.
Variable aes_block_encrypt : list byte -> list byte -> list byte.

(** [C_i = E_k(P_i xor C_(i-1))], [C_0 = iv]. *)
Fixpoint cbc_encrypt_blocks (key prev : list byte) (blocks : list (list byte))
  : list byte :=
  match blocks with
  | [] => []
  | p :: rest =>
      let c := aes_block_encrypt key (xor_bytes p prev) in
      c ++ cbc_encrypt_blocks key c rest
  end.

Definition cbc_encrypt (key iv data : list byte) : list byte :=
  cbc_encrypt_blocks key iv (chunks block_size data).

(** AES-256-CBC encryption of the PKCS#7-padded plaintext. *)
Definition encryptFixture (plaintext key iv : list byte) : list byte :=
  cbc_encrypt key iv (pkcs7_pad plaintext).
End Fixture.

End Crypto.

(** ** Responses of the platform

    The JSON bodies, with the fields the code reads and the types the
    platform gives them.  A field that the code reads through [dict.get] is
    optional: [None] stands for an absent key.  A key that is present
    holds a value of the type given here; a key present with a JSON null
    (which the code would format as the text of [None], or fail on) is not
    represented. *)

Record Challenge : Type := {
  challenge : string;
  timestampMs : Z
}.

Record AuthResponse : Type := {
  auth_referenceNumber : string;
  authenticationToken : string
}.

(** The [status] object of a status response; a key that is absent reads
    as [None] through [dict.get]. *)
Record Status : Type := {
  code : option Z;
  description : option string
}.

(** The [package] object of an export status.  [parts] lists the [url] of
    every part. *)
Record Package : Type := {
  parts : option (list string);
  isTruncated : option bool;
  permanentStorageHwmDate : option string;
  lastPermanentStorageDate : option string
}.

Record StatusResponse : Type := {
  status : option Status;
  package : option Package
}.

(** What [export_invoices] returns: the reference number of the response
    with the key and the IV stored beside it. *)
Record ExportResponse : Type := {
  referenceNumber : string;
  _encryption_key : list byte;
  _encryption_iv : list byte
}.

(** The outcome of one HTTP exchange: a decoded body, or a failure of the
    transport or of [raise_for_status]. *)
Inductive reply (A : Type) : Type :=
  | Reply (a : A)
  | Failed.
Arguments Reply {A} a.
Arguments Failed {A}.

(** The environment of a run.  Every interaction with it is numbered (the
    [tick] of the system state); the [n]-th interaction, when it is a call
    of the given kind, is answered by the corresponding field at [n]. *)
Record Platform : Type := {
  challenge_reply : nat -> reply Challenge;
  auth_reply : nat -> reply AuthResponse;
  auth_status_reply : nat -> reply StatusResponse;
  redeem_reply : nat -> reply string;
  export_reply : nat -> reply string;
  export_status_reply : nat -> reply StatusResponse;
  part_reply : nat -> string -> reply (list byte);
  utc_now : nat -> datetime;
  urandom_byte : nat -> nat -> byte
}.

(** Functions of the libraries the code calls. *)
Record Library : Type := {
  aes_block_decrypt : list byte -> list byte -> list byte;
  oaep_b64_token_key : list byte -> string;
  oaep_b64_symmetric_key : list byte -> string;
  (** [zipfile.ZipFile(BytesIO(data))]: the entries in archive order, or
      [None] for [BadZipFile]. *)
  zip_open : list byte -> option (list (string * list byte));
  (** [json.load] of [_metadata.json]: [None] for a decoding error;
      otherwise the [ksefNumber] of every entry of [invoices], or [None]
      when the document has no [invoices] key. *)
  json_load_metadata : list byte -> option (option (list string))
}.

(** What the client sends and when it sleeps, in order. *)
Inductive event : Type :=
  | POST_auth_challenge
  | POST_auth_ksef_token (challenge nip encrypted_token : string)
  | GET_auth_status (reference_number auth_token : string)
  | POST_auth_token_redeem (auth_token : string)
  | POST_invoices_exports (subject_type date_from : string) (date_to : option string)
                          (encrypted_symmetric_key : string) (iv : list byte)
  | GET_invoices_exports (reference_number : string)
  | GET_part (url : string)
  | Sleep (seconds : nat).

Record InvoiceRecord : Type := {
  ksefNumber : string;
  filename : string
}.

(** ** System state

    The mutable fields of the [KSeFClient] and of the [InvoiceFetcher],
    and the part of the environment a run changes: the state file
    [.ksef_state.json] ([None] while it does not exist), the directory
    [faktury/] as a map from file names to contents, and the history of the
    interactions.  The names of the archive entries are taken to be plain
    file names, so that [FAKTURY_DIR / filename] is the file of that name:
    a name with a directory part or with [.] or [..] segments, and a write
    that fails, are not represented. *)
Record Sys : Type := {
  (* KSeFClient *)
  access_token : option string;
  (* InvoiceFetcher *)
  state : gmap string string;
  downloaded_invoices : gset string;
  new_invoices : list InvoiceRecord;
  (* environment *)
  state_file : option (gmap string string);
  faktury : gmap string (list byte);
  tick : nat;
  trace : list event
}.

Definition set_access_token (v : option string) (s : Sys) : Sys :=
  {| access_token := v; state := state s;
     downloaded_invoices := downloaded_invoices s; new_invoices := new_invoices s;
     state_file := state_file s; faktury := faktury s;
     tick := tick s; trace := trace s |}.

Definition set_state (v : gmap string string) (s : Sys) : Sys :=
  {| access_token := access_token s; state := v;
     downloaded_invoices := downloaded_invoices s; new_invoices := new_invoices s;
     state_file := state_file s; faktury := faktury s;
     tick := tick s; trace := trace s |}.

Definition set_downloaded_invoices (v : gset string) (s : Sys) : Sys :=
  {| access_token := access_token s; state := state s;
     downloaded_invoices := v; new_invoices := new_invoices s;
     state_file := state_file s; faktury := faktury s;
     tick := tick s; trace := trace s |}.

Definition set_new_invoices (v : list InvoiceRecord) (s : Sys) : Sys :=
  {| access_token := access_token s; state := state s;
     downloaded_invoices := downloaded_invoices s; new_invoices := v;
     state_file := state_file s; faktury := faktury s;
     tick := tick s; trace := trace s |}.

Definition set_state_file (v : option (gmap string string)) (s : Sys) : Sys :=
  {| access_token := access_token s; state := state s;
     downloaded_invoices := downloaded_invoices s; new_invoices := new_invoices s;
     state_file := v; faktury := faktury s;
     tick := tick s; trace := trace s |}.

Definition set_faktury (v : gmap string (list byte)) (s : Sys) : Sys :=
  {| access_token := access_token s; state := state s;
     downloaded_invoices := downloaded_invoices s; new_invoices := new_invoices s;
     state_file := state_file s; faktury := v;
     tick := tick s; trace := trace s |}.

(** One interaction with the environment: it is recorded and numbered. *)
Definition interact (evs : list event) (s : Sys) : Sys :=
  {| access_token := access_token s; state := state s;
     downloaded_invoices := downloaded_invoices s; new_invoices := new_invoices s;
     state_file := state_file s; faktury := faktury s;
     tick := S (tick s); trace := trace s ++ evs |}.

(** ** The monad of the embedded code: state and exceptions.  The state
    reached when an exception is raised is kept, as the mutations of a
    Python object are. *)

Definition M (A : Type) : Type := Sys -> result A * Sys.

Definition ret {A} (a : A) : M A := fun s => (Ok a, s).

Definition raise {A} (e : exn) : M A := fun s => (Raise e, s).

Definition bind {A B} (m : M A) (k : A -> M B) : M B :=
  fun s =>
    match m s with
    | (Ok a, s') => k a s'
    | (Raise e, s') => (Raise e, s')
    end.

Definition gets {A} (f : Sys -> A) : M A := fun s => (Ok (f s), s).

Definition modify (f : Sys -> Sys) : M unit := fun s => (Ok tt, f s).

Notation "'let!' x ':=' m 'in' k" := (bind m (fun x => k))
  (at level 10, x name, m at level 100, k at level 200).
Notation "m ';;;' k" := (bind m (fun _ => k))
  (at level 100, k at level 200, right associativity).

(** [for x in l: body(x)] *)
Fixpoint for_each {A} (l : list A) (body : A -> M unit) : M unit :=
  match l with
  | [] => ret tt
  | x :: l' => body x ;;; for_each l' body
  end.

(** An HTTP exchange: the request is recorded, the reply is the one the
    platform gives to this interaction; [raise_for_status] and transport
    failures surface as [HTTPError]. *)
Definition http {A} (ev : event) (answer : nat -> reply A) : M A :=
  fun s =>
    match answer (tick s) with
    | Reply a => (Ok a, interact [ev] s)
    | Failed => (Raise HTTPError, interact [ev] s)
    end.

(** [time.sleep(seconds)] *)
Definition sleep (seconds : nat) : M unit :=
  modify (fun s =>
    {| access_token := access_token s; state := state s;
       downloaded_invoices := downloaded_invoices s; new_invoices := new_invoices s;
       state_file := state_file s; faktury := faktury s;
       tick := tick s; trace := trace s ++ [Sleep seconds] |}).

(** ** client.py *)

Module KSeFClient.
Section Client.
Context (lib : Library) (platform : Platform).
(** The fields set once by [__init__]. *)
Context (ksef_token context_nip : string).

Definition status_code (data : StatusResponse) : option Z :=
  match status data with
  | Some st => code st
  | None => None
  end.

(** [data.get('status', {}).get('description', 'Unknown error')], for a
    [description] that is a string when the key is present. *)
Definition status_description (data : StatusResponse) : string :=
  match status data with
  | Some st => default "Unknown error" (description st)
  | None => "Unknown error"
  end.

Definition _get_challenge : M Challenge :=
  http POST_auth_challenge (challenge_reply platform).

Definition _submit_auth (encrypted_token challenge : string) : M AuthResponse :=
  http (POST_auth_ksef_token challenge context_nip encrypted_token)
       (auth_reply platform).

(** The body of [for _ in range(max_attempts)] and what follows the
    loop, by recursion on the attempts that are left. *)
Fixpoint wait_for_auth_loop (reference_number auth_token : string)
                            (attempts : nat) : M unit :=
  match attempts with
  | O => raise (Exception "Timeout podczas oczekiwania na uwierzytelnienie")
  | S attempts' =>
      let! data := http (GET_auth_status reference_number auth_token)
                        (auth_status_reply platform) in
      match status_code data with
      | None =>
          (* [None == 200] is false and [None >= 400] is a TypeError *)
          raise TypeError
      | Some c =>
          if (c =? 200)%Z then ret tt
          else if (c >=? 400)%Z then
            raise (Exception ("Uwierzytelnianie nie powiodło się: "
                              ++ status_description data))
          else
            sleep 2 ;;;
            wait_for_auth_loop reference_number auth_token attempts'
      end
  end.

Definition auth_max_attempts : nat := 10.

Definition _wait_for_auth_completion (reference_number auth_token : string) : M unit :=
  wait_for_auth_loop reference_number auth_token auth_max_attempts.

Definition _redeem_token (auth_token : string) : M unit :=
  let! token := http (POST_auth_token_redeem auth_token) (redeem_reply platform) in
  modify (set_access_token (Some token)).

Definition authenticate : M bool :=
  (* Krok 1: Pobierz challenge *)
  let! challenge_data := _get_challenge in
  (* Krok 2: Zaszyfruj token *)
  let encrypted_token :=
    Crypto.encrypt_token (oaep_b64_token_key lib) ksef_token
                         (timestampMs challenge_data) in
  (* Krok 3: Wyślij żądanie uwierzytelnienia *)
  let! auth_response := _submit_auth encrypted_token (challenge challenge_data) in
  let reference_number := auth_referenceNumber auth_response in
  let auth_token := authenticationToken auth_response in
  (* Krok 4: Sprawdź status (polling) *)
  _wait_for_auth_completion reference_number auth_token ;;;
  (* Krok 5: Pobierz access token *)
  _redeem_token auth_token ;;;
  ret true.

(** [os.urandom(n)] *)
Definition os_urandom (n : nat) : M (list byte) :=
  fun s => (Ok (map (urandom_byte platform (tick s)) (seq 0 n)), interact [] s).

Definition export_invoices (subject_type date_from : string)
                           (date_to : option string)
                           (encryption_key encryption_iv : option (list byte))
  : M ExportResponse :=
  let! token := gets access_token in
  if negb (get_truthy token) then
    raise (Exception "Brak tokena dostępowego - najpierw uwierzytelnij się")
  else
    (* Generuj klucz i IV jeśli nie podano *)
    let! encryption_key :=
      match encryption_key with
      | None => os_urandom 32
      | Some k => ret k
      end in
    let! encryption_iv :=
      match encryption_iv with
      | None => os_urandom 16
      | Some v => ret v
      end in
    let encrypted_symmetric_key :=
      Crypto.encrypt_symmetric_key (oaep_b64_symmetric_key lib) encryption_key in
    let date_to := if get_truthy date_to then date_to else None in
    let! reference_number :=
      http (POST_invoices_exports subject_type date_from date_to
                                  encrypted_symmetric_key encryption_iv)
           (export_reply platform) in
    (* Przechowaj klucz i IV dla późniejszego deszyfrowania *)
    ret {| referenceNumber := reference_number;
           _encryption_key := encryption_key;
           _encryption_iv := encryption_iv |}.

Definition get_export_status (reference_number : string) : M StatusResponse :=
  let! token := gets access_token in
  if negb (get_truthy token) then raise (Exception "Brak tokena dostępowego")
  else http (GET_invoices_exports reference_number) (export_status_reply platform).

Definition download_package_part (part_url : string) : M (list byte) :=
  http (GET_part part_url) (fun n => part_reply platform n part_url).

End Client.
End KSeFClient.

(** ** fetch_invoices.py *)

(** An opened [zipfile.ZipFile]: the entries in archive order. *)
Definition ZipFile : Type := list (string * list byte).

Definition namelist (zf : ZipFile) : list string := map fst zf.

(** [zf.open(name).read()]: of several entries with one name the archive
    index keeps the last; [None] stands for [KeyError]. *)
Definition zf_read (zf : ZipFile) (name : string) : option (list byte) :=
  snd <$> List.find (fun entry => String.eqb (fst entry) name) (rev zf).

Module InvoiceFetcher.
Section Fetcher.
Context (lib : Library) (platform : Platform).

(** Typy podmiotów do pobierania *)
Definition SUBJECT_TYPES : list string := ["Subject1"; "Subject2"; "Subject3"].

Definition state_key (subject_type : string) : string :=
  "continuation_point_" ++ subject_type.

Definition _load_state : M (gmap string string) :=
  gets (fun s => default ∅ (state_file s)).

(** [__init__], after the client and the keys have been set up. *)
Definition __init__ : M unit :=
  let! st := _load_state in
  modify (set_state st) ;;;
  modify (set_downloaded_invoices ∅) ;;;
  modify (set_new_invoices []).

Definition _save_state : M unit :=
  modify (fun s => set_state_file (Some (state s)) s).

(** [datetime.now(timezone.utc)] *)
Definition datetime_now_utc : M datetime :=
  fun s => (Ok (utc_now platform (tick s)), interact [] s).

Fixpoint wait_for_export_loop (reference_number : string) (attempts : nat)
  : M StatusResponse :=
  match attempts with
  | O => raise (Exception "Timeout podczas oczekiwania na eksport")
  | S attempts' =>
      let! status := KSeFClient.get_export_status platform reference_number in
      match KSeFClient.status_code status with
      | None => raise TypeError
      | Some c =>
          if (c =? 200)%Z then ret status
          else if (c >=? 400)%Z then
            raise (Exception ("Eksport nie powiódł się: "
                              ++ KSeFClient.status_description status))
          else
            sleep 5 ;;;
            wait_for_export_loop reference_number attempts'
      end
  end.

Definition export_max_attempts : nat := 60.

Definition _wait_for_export_completion (reference_number : string) : M StatusResponse :=
  wait_for_export_loop reference_number export_max_attempts.

(** The identifier the metadata gives for a file name: the first entry
    whose [ksefNumber], followed by [.xml], is the file name. *)
Definition metadata_ksef_number (metadata : option (option (list string)))
                                (filename : string) : option string :=
  match metadata with
  | Some (Some invoices) =>
      List.find (fun k => String.eqb (k ++ ".xml") filename) invoices
  | _ => None
  end.

Definition derive_ksef_number (metadata : option (option (list string)))
                              (filename : string) : string :=
  (* Jeśli nie ma w metadanych, spróbuj wyciągnąć z nazwy pliku *)
  if get_truthy (metadata_ksef_number metadata filename)
  then default "" (metadata_ksef_number metadata filename)
  else py_replace ".xml" "" filename.

Definition _save_invoice (zf : ZipFile) (filename : string)
                         (metadata : option (option (list string))) : M unit :=
  let ksef_number := derive_ksef_number metadata filename in
  (* Sprawdź deduplikację *)
  let! seen := gets downloaded_invoices in
  if bool_decide (ksef_number ∈ seen) then ret tt
  else
    (* Sprawdź czy już istnieje na dysku *)
    let! dir := gets faktury in
    match dir !! filename with
    | Some _ =>
        modify (fun s => set_downloaded_invoices ({[ksef_number]} ∪ downloaded_invoices s) s)
    | None =>
        (* Zapisz fakturę *)
        match zf_read zf filename with
        | None => raise KeyError
        | Some invoice_content =>
            modify (fun s => set_faktury (<[filename := invoice_content]> (faktury s)) s) ;;;
            (* Dodaj do listy nowych *)
            modify (fun s => set_downloaded_invoices ({[ksef_number]} ∪ downloaded_invoices s) s) ;;;
            modify (fun s => set_new_invoices
                               (new_invoices s ++ [{| ksefNumber := ksef_number;
                                                      filename := filename |}]) s)
        end
    end.

(** Pobierz i połącz części *)
Fixpoint download_parts (parts : list string) : M (list byte) :=
  match parts with
  | [] => ret []
  | part_url :: rest =>
      let! part_data := KSeFClient.download_package_part platform part_url in
      let! more := download_parts rest in
      ret (part_data ++ more)%list
  end.

Definition read_metadata (zf : ZipFile) : M (option (option (list string))) :=
  if bool_decide ("_metadata.json" ∈ namelist zf) then
    match zf_read zf "_metadata.json" with
    | None => raise KeyError
    | Some raw =>
        match json_load_metadata lib raw with
        | None => raise JSONDecodeError
        | Some metadata => ret (Some metadata)
        end
    end
  else ret None.

(** The part of [_process_package] that runs on the opened archive. *)
Definition extract_invoices (zf : ZipFile) : M unit :=
  let! metadata := read_metadata zf in
  for_each (namelist zf) (fun filename =>
    if endswith filename ".xml" then _save_invoice zf filename metadata
    else ret tt).

Definition _process_package (package : Package)
                            (encryption_key encryption_iv : list byte) : M unit :=
  match default [] (parts package) with
  | [] => ret tt
  | part :: rest =>
      let! encrypted_data := download_parts (part :: rest) in
      (* Odszyfruj *)
      match Crypto.decrypt_aes (aes_block_decrypt lib) encrypted_data
                               encryption_key encryption_iv with
      | Raise e => raise e
      | Ok decrypted_data =>
          (* Rozpakuj ZIP *)
          match zip_open lib decrypted_data with
          | None => raise BadZipFile
          | Some zf => extract_invoices zf
          end
      end
  end.

Definition _update_continuation_point (subject_type : string) (package : Package)
  : M unit :=
  let state_key := state_key subject_type in
  if default false (isTruncated package) then
    let last_date := lastPermanentStorageDate package in
    if get_truthy last_date then
      modify (fun s => set_state (<[state_key := default "" last_date]> (state s)) s)
    else ret tt
  else
    let hwm_date := permanentStorageHwmDate package in
    if get_truthy hwm_date then
      modify (fun s => set_state (<[state_key := default "" hwm_date]> (state s)) s)
    else ret tt.

Definition _fetch_for_subject_type (subject_type : string) : M unit :=
  (* Określ punkt startowy *)
  let! st := gets state in
  let date_from := st !! state_key subject_type in
  let! date_from :=
    if negb (get_truthy date_from) then
      (* Pierwszy raz - pobierz od początku miesiąca *)
      let! now := datetime_now_utc in
      ret (isoformat (replace_to_month_start now))
    else ret (default "" date_from) in
  (* Inicjuj eksport (bez date_to - system sam określi zakres) *)
  let! export_response :=
    KSeFClient.export_invoices lib platform subject_type date_from None None None in
  let reference_number := referenceNumber export_response in
  let encryption_key := _encryption_key export_response in
  let encryption_iv := _encryption_iv export_response in
  (* Poczekaj na zakończenie eksportu *)
  let! status := _wait_for_export_completion reference_number in
  (* [if status.get('package')]: an absent package is false; so is an
     empty object, for which the two calls below do nothing either *)
  match package status with
  | Some package =>
      (* Pobierz i przetwórz paczkę *)
      _process_package package encryption_key encryption_iv ;;;
      (* Aktualizuj punkt kontynuacji *)
      _update_continuation_point subject_type package
  | None => ret tt
  end.

(** The [result] dictionary that [_format_output] serialises. *)
Record Output : Type := {
  count : nat;
  invoices : list InvoiceRecord
}.

Definition _format_output : M Output :=
  let! new := gets new_invoices in
  ret {| count := length new; invoices := new |}.

Context (ksef_token context_nip : string).

Definition fetch_invoices : M Output :=
  (* Uwierzytelnij się *)
  KSeFClient.authenticate lib platform ksef_token context_nip ;;;
  (* Pobierz faktury dla każdego typu podmiotu *)
  for_each SUBJECT_TYPES _fetch_for_subject_type ;;;
  (* Zapisz stan *)
  _save_state ;;;
  (* Zwróć wynik *)
  _format_output.

End Fetcher.
End InvoiceFetcher.

(** ** Notions used in the statements *)

(** The system after [n] further interactions that left the events [evs]. *)
Definition advance (n : nat) (evs : list event) (s : Sys) : Sys :=
  {| access_token := access_token s; state := state s;
     downloaded_invoices := downloaded_invoices s; new_invoices := new_invoices s;
     state_file := state_file s; faktury := faktury s;
     tick := n + tick s; trace := trace s ++ evs |}.

(** A status code that keeps a polling loop going: neither 200 nor 400 or
    above. *)
Definition in_progress (c : Z) : Prop := c <> 200%Z /\ (c < 400)%Z.

(** From interaction [t] on, the status calls are answered with the codes
    [codes], in this order. *)
Definition answers_codes (answer : nat -> reply StatusResponse) (t : nat)
                         (codes : list Z) : Prop :=
  forall i c, codes !! i = Some c ->
    exists data, answer (t + i) = Reply data /\ KSeFClient.status_code data = Some c.

(** [n] rounds of a polling loop that did not end it. *)
Definition rounds (n : nat) (call : event) (seconds : nat) : list event :=
  concat (replicate n [call; Sleep seconds]).

(** [m] only takes a system to systems related to it by [R], whether it
    returns or raises. *)
Definition respects {A} (R : Sys -> Sys -> Prop) (m : M A) : Prop :=
  forall s, R s (m s).2.

(** The deduplication invariant: the new records carry pairwise different
    identifiers, all of them in the seen-set. *)
Definition dedup_inv (s : Sys) : Prop :=
  NoDup (map ksefNumber (new_invoices s))
  /\ forall r, r ∈ new_invoices s -> ksefNumber r ∈ downloaded_invoices s.

Definition is_GET_part (e : event) : Prop :=
  match e with
  | GET_part _ => True
  | _ => False
  end.

(** Relations between the system before and after a computation. *)

Definition same_state_file (s s' : Sys) : Prop := state_file s' = state_file s.

Definition keeps_dedup_inv (s s' : Sys) : Prop := dedup_inv s -> dedup_inv s'.

Definition extends_trace (s s' : Sys) : Prop :=
  exists evs, trace s' = (trace s ++ evs)%list.

(** Nothing of the fetcher or of the disk has changed, and no part has been
    requested. *)
Definition only_talked (s s' : Sys) : Prop :=
  state s' = state s /\ faktury s' = faktury s
  /\ downloaded_invoices s' = downloaded_invoices s
  /\ new_invoices s' = new_invoices s
  /\ state_file s' = state_file s
  /\ exists evs, trace s' = (trace s ++ evs)%list /\ Forall (fun e => ~ is_GET_part e) evs.

(** Files are only ever added to the directory. *)
Definition keeps_files (s s' : Sys) : Prop :=
  forall name, is_Some (faktury s !! name) -> is_Some (faktury s' !! name).

(** Identifiers are only ever added to the seen-set. *)
Definition keeps_seen (s s' : Sys) : Prop :=
  downloaded_invoices s ⊆ downloaded_invoices s'.

(** The first statements of [_fetch_for_subject_type], which determine
    [date_from]: the stored cursor, or the start of the current month. *)
Definition start_point (platform : Platform) (subject_type : string) : M string :=
  let! st := gets state in
  let date_from := st !! InvoiceFetcher.state_key subject_type in
  if negb (get_truthy date_from) then
    let! now := InvoiceFetcher.datetime_now_utc platform in
    ret (isoformat (replace_to_month_start now))
  else ret (default "" date_from).

(** The claim that the state file is written after each subject-role: when
    the roles [completed] have been processed and the next role [k] fails,
    the state file holds, for every role of [completed], the cursor that
    the fetcher has in memory. *)
Definition persisted_after_each_role : Prop :=
  forall (lib : Library) (platform : Platform) (ksef_token context_nip : string)
         (completed rest : list string) (k : string) (s s1 s2 : Sys) (e : exn),
    InvoiceFetcher.SUBJECT_TYPES = (completed ++ k :: rest)%list ->
    (KSeFClient.authenticate lib platform ksef_token context_nip ;;;
     for_each completed (InvoiceFetcher._fetch_for_subject_type lib platform)) s
    = (Ok tt, s1) ->
    InvoiceFetcher._fetch_for_subject_type lib platform k s1 = (Raise e, s2) ->
    forall j, j ∈ completed ->
      (state_file s2 ≫= (fun file => file !! InvoiceFetcher.state_key j))
      = state s1 !! InvoiceFetcher.state_key j.

(** Every document of the archive whose identifier is seen in [s0] is, in
    [s2], on disk under its own name or has its identifier seen.  The
    identifiers are derived with the metadata that [read_metadata] finds in
    the archive. *)
Definition skipped_documents_known (lib : Library) (zf : ZipFile)
                                   (s0 s2 : Sys) : Prop :=
  forall metadata name,
    (InvoiceFetcher.read_metadata lib zf s0).1 = Ok metadata ->
    name ∈ namelist zf -> endswith name ".xml" = true ->
    InvoiceFetcher.derive_ksef_number metadata name ∈ downloaded_invoices s0 ->
    InvoiceFetcher.derive_ksef_number metadata name ∈ downloaded_invoices s2
    \/ is_Some (faktury s2 !! name).

(** The claim that a second materialization never records or writes
    anything, whatever the fetcher that performed the first and the one
    that performs the second on the directory the first left. *)
Definition materialization_idempotent : Prop :=
  forall (lib : Library) (zf : ZipFile) (s0 s2 : Sys),
    faktury s2 = faktury (InvoiceFetcher.extract_invoices lib zf s0).2 ->
    new_invoices (InvoiceFetcher.extract_invoices lib zf s2).2 = new_invoices s2
    /\ faktury (InvoiceFetcher.extract_invoices lib zf s2).2 = faktury s2.

(** ** Fixtures

    Concrete instances on which the statements below are evaluated. *)

Module Fixture.

(** A stand-in block cipher: the block xor the first sixteen key bytes.  It
    is its own inverse and keeps the block length. *)
Definition xor_cipher (key block : list byte) : list byte :=
  Crypto.xor_bytes block (take Crypto.block_size key).

Definition key32 : list byte :=
  [x00; x01; x02; x03; x04; x05; x06; x07; x08; x09; x0a; x0b; x0c; x0d; x0e; x0f;
   x10; x11; x12; x13; x14; x15; x16; x17; x18; x19; x1a; x1b; x1c; x1d; x1e; x1f].

Definition iv16 : list byte :=
  [xa0; xa1; xa2; xa3; xa4; xa5; xa6; xa7; xa8; xa9; xaa; xab; xac; xad; xae; xaf].

(** Seventeen bytes: more than one block. *)
Definition plaintext17 : list byte :=
  [x4b; x53; x65; x46; x20; x69; x6e; x76; x6f; x69; x63; x65; x20; x64; x61; x74; x61].

(** A system before anything has happened: no token, empty fetcher, no
    state file, empty directory. *)
Definition sys0 : Sys :=
  {| access_token := None; state := ∅; downloaded_invoices := ∅;
     new_invoices := []; state_file := None; faktury := ∅;
     tick := 0; trace := [] |}.

Definition D1 : string := "2024-06-10T00:00:00Z".
Definition D2 : string := "2024-06-15T00:00:00Z".

(** Truncated, both dates present. *)
Definition package_truncated : Package :=
  {| parts := None; isTruncated := Some true;
     permanentStorageHwmDate := Some D2; lastPermanentStorageDate := Some D1 |}.

(** Not truncated, only the high-water mark present. *)
Definition package_complete : Package :=
  {| parts := None; isTruncated := Some false;
     permanentStorageHwmDate := Some D2; lastPermanentStorageDate := None |}.

(** No date at all. *)
Definition package_undated : Package :=
  {| parts := None; isTruncated := Some false;
     permanentStorageHwmDate := None; lastPermanentStorageDate := None |}.

(** Truncated, but without [lastPermanentStorageDate]. *)
Definition package_truncated_no_last : Package :=
  {| parts := None; isTruncated := Some true;
     permanentStorageHwmDate := Some D2; lastPermanentStorageDate := None |}.

(** Status replies by interaction number: in progress (100) at 0 and 1,
    200 at 2, in progress again up to [last_pending], and 450 with a
    description after that. *)
Definition status_with (c : Z) (d : option string) : StatusResponse :=
  {| status := Some {| code := Some c; description := d |}; package := None |}.

Definition status_script (last_pending t : nat) : reply StatusResponse :=
  if (t <? 2)%nat then Reply (status_with 100 None)
  else if (t =? 2)%nat then Reply (status_with 200 None)
  else if (t <=? last_pending)%nat then Reply (status_with 100 None)
  else Reply (status_with 450 (Some "Invalid token")).

Definition afternoon : datetime :=
  {| year := 2024; month := 6; day := 17; hour := 13; minute := 45;
     second := 12; microsecond := 250 |}.

(** A platform that answers status calls by [status_script] and fails
    every other exchange. *)
Definition polling_platform : Platform :=
  {| challenge_reply := fun _ => Failed;
     auth_reply := fun _ => Failed;
     auth_status_reply := status_script 12;
     redeem_reply := fun _ => Failed;
     export_reply := fun _ => Failed;
     export_status_reply := status_script 62;
     part_reply := fun _ _ => Failed;
     utc_now := fun _ => afternoon;
     urandom_byte := fun _ _ => x00 |}.

(** An authenticated system at interaction [t]. *)
Definition sys_at (t : nat) : Sys :=
  {| access_token := Some "access-token"; state := ∅; downloaded_invoices := ∅;
     new_invoices := []; state_file := None; faktury := ∅;
     tick := t; trace := [] |}.

(** An archive with its metadata and one invoice. *)
Definition archive : ZipFile :=
  [("_metadata.json", [x7b; x7d]);
   ("1111-AAAA.xml", [x3c; x61; x2f; x3e])].

(** Stand-ins for the libraries: the xor cipher, fixed public-key
    ciphertexts, and an unzip that finds [archive] in any non-empty data
    and whose metadata lists the identifier [1111-AAAA]. *)
Definition lib : Library :=
  {| aes_block_decrypt := xor_cipher;
     oaep_b64_token_key := fun _ => "encrypted-token";
     oaep_b64_symmetric_key := fun _ => "encrypted-key";
     zip_open := fun data => match data with [] => None | _ => Some archive end;
     json_load_metadata := fun _ => Some (Some ["1111-AAAA"]) |}.

(** One part, not truncated, high-water mark [D2]. *)
Definition package_one_part : Package :=
  {| parts := Some ["https://storage/part-1"]; isTruncated := Some false;
     permanentStorageHwmDate := Some D2; lastPermanentStorageDate := None |}.

(** A platform on which authentication succeeds at once, every export is
    complete at the first status call with [package_one_part], and export
    requests are accepted up to interaction [export_until] and fail after
    it. *)
Definition run_platform (export_until : nat) : Platform :=
  {| challenge_reply := fun _ =>
       Reply {| challenge := "challenge-1"; timestampMs := 1718631912000 |};
     auth_reply := fun _ =>
       Reply {| auth_referenceNumber := "auth-ref"; authenticationToken := "auth-token" |};
     auth_status_reply := fun _ => Reply (status_with 200 None);
     redeem_reply := fun _ => Reply "access-token";
     export_reply := fun t =>
       if (t <=? export_until)%nat then Reply "export-ref" else Failed;
     export_status_reply := fun _ =>
       Reply {| status := Some {| code := Some 200%Z; description := None |};
                package := Some package_one_part |};
     part_reply := fun _ _ => Reply (replicate 31 x00 ++ [x01])%list;
     utc_now := fun _ => afternoon;
     urandom_byte := fun _ _ => x00 |}.

(** A fetcher constructed on an empty disk. *)
Definition fresh : Sys := (InvoiceFetcher.__init__ sys0).2.

(** As [run_platform], but the export completes without a package. *)
Definition no_package_platform : Platform :=
  {| challenge_reply := challenge_reply (run_platform 100);
     auth_reply := auth_reply (run_platform 100);
     auth_status_reply := auth_status_reply (run_platform 100);
     redeem_reply := redeem_reply (run_platform 100);
     export_reply := export_reply (run_platform 100);
     export_status_reply := fun _ => Reply (status_with 200 None);
     part_reply := part_reply (run_platform 100);
     utc_now := utc_now (run_platform 100);
     urandom_byte := urandom_byte (run_platform 100) |}.

(** Two archives without metadata whose only documents have different
    names and, as [_save_invoice] derives it, the same identifier [a]. *)
Definition archive_a : ZipFile := [("a.xml", [x3c; x61; x2f; x3e])].
Definition archive_a_twice : ZipFile := [("a.xml.xml", [x3c; x62; x2f; x3e])].

(** A fetcher constructed anew on the disk that [s] left. *)
Definition restarted (s : Sys) : Sys :=
  set_new_invoices [] (set_downloaded_invoices ∅ s).

End Fixture.

(** ** Further notions used in the statements *)

(** Nothing has changed but the number and the history of the
    interactions. *)
Definition only_interacted (s s' : Sys) : Prop :=
  exists n evs, s' = advance n evs s.

(** The cursors are as they were. *)
Definition same_cursors (s s' : Sys) : Prop := state s' = state s.

(** No file that was on disk has been changed or removed. *)
Definition keeps_file_contents (s s' : Sys) : Prop :=
  forall name content,
    faktury s !! name = Some content -> faktury s' !! name = Some content.

(** Every file that has appeared on disk is a document of the archive: an
    entry whose name ends in [.xml], with the contents the archive has for
    that name. *)
Definition written_from (zf : ZipFile) (s s' : Sys) : Prop :=
  forall name content,
    faktury s' !! name = Some content ->
    faktury s !! name = Some content
    \/ (name ∈ namelist zf /\ endswith name ".xml" = true
        /\ zf_read zf name = Some content).

(** Every new record names a file that is on disk. *)
Definition records_on_disk (s : Sys) : Prop :=
  forall r, r ∈ new_invoices s -> is_Some (faktury s !! filename r).

Definition keeps_records_on_disk (s s' : Sys) : Prop :=
  records_on_disk s -> records_on_disk s'.


(** ** crypto.py: the public keys

    [Crypto._fetch_public_keys], from the decoded list of certificates on.
    A certificate entry has an optional list [usage] and a field
    [certificate], read with [cert_info['certificate']]. *)

Module PublicKeys.

Record CertInfo : Type := {
  usage : option (list string);
  certificate : option string
}.

(** The certificates that carry a given usage, in the order of the list. *)
Definition with_usage (u : string) (certificates : list CertInfo) : list CertInfo :=
  filter (fun cert_info => u ∈ default [] (usage cert_info)) certificates.

Section Keys.
Context {PublicKey : Type}.

(** [Crypto._load_public_key]: Base64 and DER decoding of the certificate;
    [None] where either raises (both raise a [ValueError]). *)
Context (_load_public_key : string -> option PublicKey).

(** The two attributes of the object; [None] while the attribute has not
    been set ([hasattr] is false). *)
Record Attrs : Type := {
  token_public_key : option PublicKey;
  symmetric_key_public_key : option PublicKey
}.

Definition set_token_public_key (k : PublicKey) (a : Attrs) : Attrs :=
  {| token_public_key := Some k;
     symmetric_key_public_key := symmetric_key_public_key a |}.

Definition set_symmetric_key_public_key (k : PublicKey) (a : Attrs) : Attrs :=
  {| token_public_key := token_public_key a;
     symmetric_key_public_key := Some k |}.

(** The body of the loop over the certificates. *)
Definition load_certificate (a : Attrs) (cert_info : CertInfo) : result Attrs :=
  let usage := default [] (usage cert_info) in
  match certificate cert_info with
  | None => Raise KeyError
  | Some certificate_b64 =>
      let after_token :=
        if bool_decide ("KsefTokenEncryption" ∈ usage)
        then match _load_public_key certificate_b64 with
             | Some k => Ok (set_token_public_key k a)
             | None => Raise ValueError
             end
        else Ok a in
      match after_token with
      | Raise e => Raise e
      | Ok a1 =>
          if bool_decide ("SymmetricKeyEncryption" ∈ usage)
          then match _load_public_key certificate_b64 with
               | Some k => Ok (set_symmetric_key_public_key k a1)
               | None => Raise ValueError
               end
          else Ok a1
      end
  end.

Fixpoint load_certificates (a : Attrs) (certificates : list CertInfo)
    : result Attrs :=
  match certificates with
  | [] => Ok a
  | cert_info :: rest =>
      match load_certificate a cert_info with
      | Ok a1 => load_certificates a1 rest
      | Raise e => Raise e
      end
  end.

(** [_fetch_public_keys] on a newly created object, given the outcome of
    the request for the certificates. *)
Definition _fetch_public_keys (response : reply (list CertInfo)) : result Attrs :=
  match response with
  | Failed => Raise HTTPError
  | Reply certificates =>
      match load_certificates
              {| token_public_key := None; symmetric_key_public_key := None |}
              certificates with
      | Raise e => Raise e
      | Ok a =>
          match token_public_key a with
          | None =>
              Raise (Exception "Nie znaleziono certyfikatu do szyfrowania tokenów KSeF")
          | Some _ =>
              match symmetric_key_public_key a with
              | None =>
                  Raise (Exception "Nie znaleziono certyfikatu do szyfrowania kluczy symetrycznych")
              | Some _ => Ok a
              end
          end
      end
  end.

(** The key that a list of certificates gives for a usage: that of the
    last certificate carrying the usage. *)
Definition key_for (u : string) (certificates : list CertInfo)
    : option PublicKey :=
  match last (with_usage u certificates) with
  | Some cert_info =>
      match certificate cert_info with
      | Some certificate_b64 => _load_public_key certificate_b64
      | None => None
      end
  | None => None
  end.

(** An entry that has its [certificate] field and, when it carries one of
    the two usages, can be loaded. *)
Definition loadable (cert_info : CertInfo) : Prop :=
  exists certificate_b64,
    certificate cert_info = Some certificate_b64
    /\ (("KsefTokenEncryption" ∈ default [] (usage cert_info)
         \/ "SymmetricKeyEncryption" ∈ default [] (usage cert_info)) ->
        is_Some (_load_public_key certificate_b64)).

End Keys.

End PublicKeys.

(** ** Further Python string helpers *)

(** [c in s], [s.split(c)[0]] and [s.lstrip(c)] for a one-character [c]. *)
Fixpoint str_contains (c : ascii) (s : string) : bool :=
  match s with
  | EmptyString => false
  | String a rest => if Ascii.eqb a c then true else str_contains c rest
  end.

Fixpoint str_split_head (c : ascii) (s : string) : string :=
  match s with
  | EmptyString => EmptyString
  | String a rest =>
      if Ascii.eqb a c then EmptyString else String a (str_split_head c rest)
  end.

Fixpoint str_lstrip (c : ascii) (s : string) : string :=
  match s with
  | EmptyString => EmptyString
  | String a rest => if Ascii.eqb a c then str_lstrip c rest else s
  end.

(** ** transform_invoices.py: the choice of the stylesheet *)

Module Transform.

(** [detect_namespace], from the tag of the root element on. *)
Definition detect_namespace (tag : string) : option string :=
  if str_contains "}" tag
  then Some (str_lstrip "{" (str_split_head "}" tag))
  else None.

Definition XSLT_DIR : string := "xslt".

(** [os.path.join(a, b)] for a relative [b] and an [a] without trailing
    separator. *)
Definition os_path_join (a b : string) : string := a ++ "/" ++ b.

Definition NAMESPACE_XSLT_MAP : gmap string string :=
  {[ "http://crd.gov.pl/wzor/2025/06/25/13775/" :=
       os_path_join XSLT_DIR "kseffaktura_fa(3).xsl";
     "http://crd.gov.pl/wzor/2023/06/29/12648/" :=
       os_path_join XSLT_DIR "kseffaktura.xsl" ]}.

Inductive error : Type :=
  | ValueError (msg : string)
  | FileNotFoundError (msg : string).

(** [f"{namespace}"] *)
Definition format_namespace (namespace : option string) : string :=
  match namespace with
  | Some ns => ns
  | None => "None"
  end.

(** [select_xslt]; [os_path_exists] is the file system at the time of the
    call. *)
Definition select_xslt (os_path_exists : string -> bool)
    (namespace : option string) : error + string :=
  let xslt_path :=
    match namespace with
    | Some ns => NAMESPACE_XSLT_MAP !! ns
    | None => None
    end in
  if negb (get_truthy xslt_path)
  then inl (ValueError ("Nieznany namespace: " ++ format_namespace namespace))
  else
    let xslt_path := default "" xslt_path in
    if negb (os_path_exists xslt_path)
    then inl (FileNotFoundError ("Brak pliku XSLT: " ++ xslt_path))
    else inr xslt_path.

End Transform.

(** * Properties *)

Local Open Scope list_scope.

(** ** Blocks *)

Section ChunkFacts.
Context {A : Type}.
Implicit Types (l b : list A) (n fuel : nat).

Lemma chunks_fuel_enough n fuel1 fuel2 l :
  0 < n -> length l <= fuel1 -> length l <= fuel2 ->
  chunks_fuel fuel1 n l = chunks_fuel fuel2 n l.
Proof.
  intros Hn. revert fuel2 l.
  induction fuel1 as [|fuel1 IH]; intros fuel2 l H1 H2.
  - destruct l; simpl in *; [|lia]. by destruct fuel2.
  - destruct fuel2 as [|fuel2].
    + destruct l; simpl in *; [done|lia].
    + destruct l as [|x l]; [done|].
      cbn [chunks_fuel]. f_equal.
      apply IH; rewrite length_drop; simpl in *; lia.
Qed.

Lemma chunks_app_block n b l :
  0 < n -> length b = n -> chunks n (b ++ l) = b :: chunks n l.
Proof.
  intros Hn Hb. unfold chunks.
  destruct b as [|x b]; [simpl in Hb; lia|].
  rewrite length_app. rewrite Hb.
  destruct n as [|n]; [lia|].
  change (S n + length l) with (S (n + length l)).
  cbn [chunks_fuel]. change ((x :: b) ++ l)%list with (x :: (b ++ l))%list.
  cbv beta iota. f_equal.
  - change (x :: (b ++ l))%list with ((x :: b) ++ l)%list.
    by rewrite take_app_length'.
  - change (x :: (b ++ l))%list with ((x :: b) ++ l)%list.
    rewrite drop_app_length'; [|done].
    apply chunks_fuel_enough; lia.
Qed.

Lemma chunks_nil n : chunks n (@nil A) = [].
Proof. done. Qed.

Lemma chunks_concat n (bs : list (list A)) :
  0 < n -> Forall (fun b => length b = n) bs -> chunks n (concat bs) = bs.
Proof.
  intros Hn. induction 1 as [|b bs Hb _ IH]; [done|].
  simpl. rewrite chunks_app_block; [|done..]. by rewrite IH.
Qed.

(** A list whose length is a multiple of [n] splits into whole blocks. *)
Lemma whole_blocks n l :
  0 < n -> length l mod n = 0 ->
  exists bs, l = concat bs /\ Forall (fun b => length b = n) bs.
Proof.
  intros Hn Hmod.
  assert (Hk : exists k, length l = k * n).
  { exists (length l / n). rewrite Nat.mul_comm.
    apply Nat.Div0.div_exact. done. }
  destruct Hk as [k Hk]. revert l Hmod Hk.
  induction k as [|k IH]; intros l Hmod Hk.
  - exists []. destruct l; simpl in *; [done|lia].
  - destruct (IH (drop n l)) as (bs & Hbs & Hall).
    + rewrite length_drop, Hk. simpl.
      replace (n + k * n - n) with (k * n) by lia.
      by rewrite Nat.Div0.mod_mul.
    + rewrite length_drop, Hk. simpl. lia.
    + exists (take n l :: bs). split.
      * simpl. rewrite <- Hbs. by rewrite take_drop.
      * constructor; [|done]. rewrite length_take, Hk. simpl. lia.
Qed.
End ChunkFacts.

(** ** CBC and PKCS#7 *)

Section CryptoFacts.
Import Crypto.

Lemma xor_bits_cancel (x y : bits8) : xor_bits (xor_bits x y) y = x.
Proof.
  destruct x as (a0 & a1 & a2 & a3 & a4 & a5 & a6 & a7).
  destruct y as (b0 & b1 & b2 & b3 & b4 & b5 & b6 & b7).
  cbn. by rewrite !xorb_assoc, !xorb_nilpotent, !xorb_false_r.
Qed.

Lemma xor_byte_cancel (a b : byte) : xor_byte (xor_byte a b) b = a.
Proof.
  unfold xor_byte.
  by rewrite Byte.to_bits_of_bits, xor_bits_cancel, Byte.of_bits_to_bits.
Qed.

Lemma xor_bytes_cancel (p prev : list byte) :
  length p <= length prev -> xor_bytes (xor_bytes p prev) prev = p.
Proof.
  revert prev. induction p as [|x p IH]; intros [|y prev] Hlen;
    simpl in *; try done; try lia.
  rewrite xor_byte_cancel, IH; [done|lia].
Qed.

Lemma length_xor_bytes (a b : list byte) :
  length (xor_bytes a b) = min (length a) (length b).
Proof.
  revert b. induction a as [|x a IH]; intros [|y b]; simpl; try done.
  by rewrite IH.
Qed.

Lemma byte_of_nat_to_nat (n : nat) : n <= 255 -> Byte.to_nat (byte_of_nat n) = n.
Proof.
  intros Hn. unfold byte_of_nat.
  pose proof (Byte.to_of_nat_option_map n) as H.
  destruct (Byte.of_nat n) as [b|] eqn:Hb; simpl in H.
  - destruct (n <=? 255)%nat; congruence.
  - apply Nat.leb_le in Hn. rewrite Hn in H. done.
Qed.

Lemma pad_length_bounds (data : list byte) :
  1 <= block_size - length data mod block_size <= block_size.
Proof.
  pose proof (Nat.mod_upper_bound (length data) block_size).
  unfold block_size in *. lia.
Qed.

Lemma length_pkcs7_pad (data : list byte) :
  length (pkcs7_pad data) mod block_size = 0.
Proof.
  unfold pkcs7_pad. rewrite length_app, length_replicate.
  pose proof (Nat.mod_upper_bound (length data) block_size).
  pose proof (Nat.div_mod_eq (length data) block_size) as Hd.
  unfold block_size in *.
  replace (length data + (16 - length data mod 16))
    with ((length data / 16 + 1) * 16) by lia.
  apply Nat.Div0.mod_mul.
Qed.

(** Stripping a well-formed PKCS#7 padding gives the data back. *)
Lemma strip_pkcs7_pad (data : list byte) :
  exists p, py_last (pkcs7_pad data) = Some p /\
            py_slice_to_neg (Byte.to_nat p) (pkcs7_pad data) = data.
Proof.
  pose proof (pad_length_bounds data) as Hp.
  unfold pkcs7_pad.
  set (p := block_size - length data mod block_size) in *.
  exists (byte_of_nat p). split.
  - unfold py_last. destruct p as [|p]; [lia|].
    rewrite replicate_S_end, app_assoc. apply last_snoc.
  - rewrite byte_of_nat_to_nat by (unfold block_size in *; lia).
    unfold py_slice_to_neg. destruct p as [|p]; [lia|].
    rewrite length_app, length_replicate.
    replace (length data + S p - S p) with (length data) by lia.
    apply take_app_length.
Qed.

Section Cipher.
Variables E D : list byte -> list byte -> list byte.
Variable key : list byte.
Hypothesis E_length :
  forall b, length b = block_size -> length (E key b) = block_size.
Hypothesis D_E : forall b, length b = block_size -> D key (E key b) = b.

Lemma length_cbc_encrypt_blocks prev (bs : list (list byte)) :
  length prev = block_size ->
  Forall (fun b => length b = block_size) bs ->
  length (cbc_encrypt_blocks E key prev bs) = length bs * block_size.
Proof.
  intros Hprev Hall. revert prev Hprev.
  induction Hall as [|b bs Hb _ IH]; intros prev Hprev; [done|].
  cbn [cbc_encrypt_blocks]. rewrite length_app.
  assert (Hx : length (xor_bytes b prev) = block_size)
    by (rewrite length_xor_bytes; lia).
  rewrite E_length by done. rewrite IH by (by apply E_length). simpl. lia.
Qed.

Lemma cbc_blocks_roundtrip prev (bs : list (list byte)) :
  length prev = block_size ->
  Forall (fun b => length b = block_size) bs ->
  cbc_decrypt_blocks D key prev
    (chunks block_size (cbc_encrypt_blocks E key prev bs)) = concat bs.
Proof.
  intros Hprev Hall. revert prev Hprev.
  induction Hall as [|b bs Hb _ IH]; intros prev Hprev; [done|].
  cbn [cbc_encrypt_blocks].
  assert (Hx : length (xor_bytes b prev) = block_size)
    by (rewrite length_xor_bytes; lia).
  rewrite chunks_app_block; [|unfold block_size; lia|by apply E_length].
  cbn [cbc_decrypt_blocks concat].
  rewrite D_E by done. rewrite xor_bytes_cancel by lia.
  f_equal. apply IH. by apply E_length.
Qed.

(** Decryption of the CBC encryption of whole blocks. *)
Lemma cbc_roundtrip iv (data : list byte) :
  length key = 32 -> length iv = block_size ->
  length data mod block_size = 0 ->
  cbc_decrypt D key iv (cbc_encrypt E key iv data) = Ok data.
Proof.
  intros Hkey Hiv Hdata.
  destruct (whole_blocks block_size data) as (bs & -> & Hall);
    [unfold block_size; lia|done|].
  unfold cbc_decrypt, cbc_encrypt, valid_key, valid_iv.
  rewrite Hkey, Hiv. cbn [Nat.eqb orb negb block_size].
  rewrite chunks_concat by (done || (unfold block_size; lia)).
  rewrite length_cbc_encrypt_blocks by done.
  rewrite Nat.Div0.mod_mul. cbn [Nat.eqb negb].
  by rewrite cbc_blocks_roundtrip.
Qed.
End Cipher.
End CryptoFacts.

(** ** C7 and C2: [decrypt_aes] *)

Lemma xor_cipher_length (key : list byte) :
  length key = 32 ->
  forall b, length b = Crypto.block_size ->
  length (Fixture.xor_cipher key b) = Crypto.block_size.
Proof.
  intros Hk b Hb. unfold Fixture.xor_cipher.
  rewrite length_xor_bytes, length_take, Hk, Hb. reflexivity.
Qed.

Lemma xor_cipher_inverse (key : list byte) :
  length key = 32 ->
  forall b, length b = Crypto.block_size ->
  Fixture.xor_cipher key (Fixture.xor_cipher key b) = b.
Proof.
  intros Hk b Hb. unfold Fixture.xor_cipher.
  apply xor_bytes_cancel. rewrite length_take, Hk, Hb. reflexivity.
Qed.

(** Whatever the last byte of the decrypted stream is, [decrypt_aes]
    returns a result: the value of the byte is not checked. *)
Lemma decrypt_aes_unchecked (E D : list byte -> list byte -> list byte)
    (key iv data : list byte) (p : byte) :
  (forall b, length b = Crypto.block_size -> length (E key b) = Crypto.block_size) ->
  (forall b, length b = Crypto.block_size -> D key (E key b) = b) ->
  length key = 32 -> length iv = Crypto.block_size ->
  length data mod Crypto.block_size = 0 ->
  py_last data = Some p ->
  Crypto.decrypt_aes D (Crypto.cbc_encrypt E key iv data) key iv
  = Ok (py_slice_to_neg (Byte.to_nat p) data).
Proof.
  intros HE HD Hk Hiv Hdata Hlast. unfold Crypto.decrypt_aes.
  rewrite (cbc_roundtrip E D key HE HD) by done.
  by rewrite Hlast.
Qed.

(** C7: for every 32-byte key, 16-byte IV and plaintext of any length (so of
    length 0, 1 and of more than one block), [decrypt_aes] applied to the
    AES-256-CBC encryption of the PKCS#7-padded plaintext under the same
    key and IV returns exactly the plaintext.  The block cipher is any pair
    of inverse transformations of 16-byte blocks, as AES is. *)
Theorem decrypt_aes_roundtrip (E D : list byte -> list byte -> list byte)
    (key iv plaintext : list byte) :
  (forall b, length b = 16 -> length (E key b) = 16) ->
  (forall b, length b = 16 -> D key (E key b) = b) ->
  length key = 32 -> length iv = 16 ->
  Crypto.decrypt_aes D (Crypto.encryptFixture E plaintext key iv) key iv
  = Ok plaintext.
Proof.
  intros HE HD Hk Hiv. unfold Crypto.encryptFixture.
  destruct (strip_pkcs7_pad plaintext) as (p & Hlast & Hstrip).
  rewrite (decrypt_aes_unchecked E D key iv _ p); try done.
  - by rewrite Hstrip.
  - apply length_pkcs7_pad.
Qed.

Lemma decrypt_aes_roundtrip_witness :
  (forall b, length b = 16 -> length (Fixture.xor_cipher Fixture.key32 b) = 16) /\
  (forall b, length b = 16 ->
     Fixture.xor_cipher Fixture.key32 (Fixture.xor_cipher Fixture.key32 b) = b) /\
  length Fixture.key32 = 32 /\ length Fixture.iv16 = 16 /\
  Crypto.decrypt_aes Fixture.xor_cipher
    (Crypto.encryptFixture Fixture.xor_cipher Fixture.plaintext17 Fixture.key32 Fixture.iv16)
    Fixture.key32 Fixture.iv16
  = Ok Fixture.plaintext17.
Proof.
  pose proof (xor_cipher_length Fixture.key32) as HE.
  pose proof (xor_cipher_inverse Fixture.key32) as HD.
  specialize (HE eq_refl). specialize (HD eq_refl).
  split; [exact HE|]. split; [exact HD|].
  split; [reflexivity|]. split; [reflexivity|].
  exact (decrypt_aes_roundtrip Fixture.xor_cipher Fixture.xor_cipher
           Fixture.key32 Fixture.iv16 Fixture.plaintext17 HE HD eq_refl eq_refl).
Defined.

(** The three lengths of the claim, evaluated. *)
Example roundtrip_empty :
  Crypto.decrypt_aes Fixture.xor_cipher
    (Crypto.encryptFixture Fixture.xor_cipher [] Fixture.key32 Fixture.iv16)
    Fixture.key32 Fixture.iv16 = Ok [].
Proof. vm_compute. reflexivity. Qed.

Example roundtrip_one_byte :
  Crypto.decrypt_aes Fixture.xor_cipher
    (Crypto.encryptFixture Fixture.xor_cipher [x41] Fixture.key32 Fixture.iv16)
    Fixture.key32 Fixture.iv16 = Ok [x41].
Proof. vm_compute. reflexivity. Qed.

(** C2: the stream that decrypts to one block of zero bytes ends in the
    padding value 0, and the stream that decrypts to two blocks of the byte
    0x11 ends in the padding value 17; [decrypt_aes] raises for neither.
    The first comes back empty, the second cut by seventeen bytes. *)
Theorem decrypt_aes_out_of_range_padding
    (E D : list byte -> list byte -> list byte) (key iv : list byte) :
  (forall b, length b = 16 -> length (E key b) = 16) ->
  (forall b, length b = 16 -> D key (E key b) = b) ->
  length key = 32 -> length iv = 16 ->
  Crypto.decrypt_aes D (Crypto.cbc_encrypt E key iv (replicate 16 x00)) key iv
  = Ok []
  /\ Crypto.decrypt_aes D (Crypto.cbc_encrypt E key iv (replicate 32 x11)) key iv
     = Ok (replicate 15 x11).
Proof.
  intros HE HD Hk Hiv. split.
  - by rewrite (decrypt_aes_unchecked E D key iv _ x00).
  - by rewrite (decrypt_aes_unchecked E D key iv _ x11).
Qed.

Lemma decrypt_aes_out_of_range_padding_witness :
  Crypto.decrypt_aes Fixture.xor_cipher
    (Crypto.cbc_encrypt Fixture.xor_cipher Fixture.key32 Fixture.iv16 (replicate 16 x00))
    Fixture.key32 Fixture.iv16 = Ok []
  /\ Crypto.decrypt_aes Fixture.xor_cipher
       (Crypto.cbc_encrypt Fixture.xor_cipher Fixture.key32 Fixture.iv16 (replicate 32 x11))
       Fixture.key32 Fixture.iv16 = Ok (replicate 15 x11).
Proof.
  exact (decrypt_aes_out_of_range_padding Fixture.xor_cipher Fixture.xor_cipher
           Fixture.key32 Fixture.iv16
           (xor_cipher_length Fixture.key32 eq_refl)
           (xor_cipher_inverse Fixture.key32 eq_refl) eq_refl eq_refl).
Defined.

(** ** C3 and C9: [_update_continuation_point] *)

Lemma str_truthy_nonempty (d : string) : d <> "" -> str_truthy d = true.
Proof.
  intros Hd. unfold str_truthy.
  destruct (String.eqb_spec d ""); [contradiction|reflexivity].
Qed.

(** C3: on a completed package, [_update_continuation_point] sets the
    cursor of the subject-role to [lastPermanentStorageDate] = D1 (and so
    not to D2) when [isTruncated] is true and both dates are present; to
    [permanentStorageHwmDate] = D2 when [isTruncated] is false and only that
    date is present; and leaves the state as it is when neither date is
    present.  A date is a non-empty string. *)
Theorem continuation_point_advancement (subject_type : string)
    (package : Package) (s : Sys) :
  let s' := (InvoiceFetcher._update_continuation_point subject_type package s).2 in
  let key := InvoiceFetcher.state_key subject_type in
  (forall d1 d2 : string,
      isTruncated package = Some true ->
      lastPermanentStorageDate package = Some d1 ->
      permanentStorageHwmDate package = Some d2 ->
      d1 <> "" -> d1 <> d2 ->
      state s' = <[key := d1]> (state s)
      /\ state s' !! key = Some d1 /\ state s' !! key <> Some d2)
  /\ (forall d2 : string,
      isTruncated package = Some false ->
      lastPermanentStorageDate package = None ->
      permanentStorageHwmDate package = Some d2 ->
      d2 <> "" ->
      state s' = <[key := d2]> (state s) /\ state s' !! key = Some d2)
  /\ (lastPermanentStorageDate package = None ->
      permanentStorageHwmDate package = None ->
      s' = s).
Proof.
  unfold InvoiceFetcher._update_continuation_point.
  cbv zeta. split; [|split].
  - intros d1 d2 Ht Hl Hh Hne Hd. rewrite Ht, Hl. cbn [default get_truthy].
    rewrite (str_truthy_nonempty d1 Hne). cbn.
    rewrite lookup_insert_eq. split; [done|]. split; [done|]. congruence.
  - intros d2 Ht Hl Hh Hne. rewrite Ht, Hh. cbn [default get_truthy].
    rewrite (str_truthy_nonempty d2 Hne). cbn.
    by rewrite lookup_insert_eq.
  - intros Hl Hh. rewrite Hl, Hh. cbn [get_truthy].
    by destruct (default false (isTruncated package)).
Qed.

Lemma continuation_point_advancement_witness :
  let key := InvoiceFetcher.state_key "Subject1" in
  state (InvoiceFetcher._update_continuation_point "Subject1"
           Fixture.package_truncated Fixture.sys0).2 !! key = Some Fixture.D1
  /\ state (InvoiceFetcher._update_continuation_point "Subject1"
           Fixture.package_complete Fixture.sys0).2 !! key = Some Fixture.D2
  /\ (InvoiceFetcher._update_continuation_point "Subject1"
           Fixture.package_undated Fixture.sys0).2 = Fixture.sys0.
Proof.
  split; [|split].
  - refine (proj1 (proj2 (proj1
      (continuation_point_advancement "Subject1" Fixture.package_truncated Fixture.sys0)
      Fixture.D1 Fixture.D2 eq_refl eq_refl eq_refl _ _))); discriminate.
  - refine (proj2 (proj1 (proj2
      (continuation_point_advancement "Subject1" Fixture.package_complete Fixture.sys0))
      Fixture.D2 eq_refl eq_refl eq_refl _)); discriminate.
  - exact (proj2 (proj2
      (continuation_point_advancement "Subject1" Fixture.package_undated Fixture.sys0))
      eq_refl eq_refl).
Defined.

(** C9: when the package reports truncation and [lastPermanentStorageDate]
    is absent, [_update_continuation_point] returns without changing
    anything, whatever [permanentStorageHwmDate] holds: there is no fall
    back to the high-water mark. *)
Theorem truncated_without_last_date (subject_type : string)
    (package : Package) (s : Sys) :
  isTruncated package = Some true ->
  lastPermanentStorageDate package = None ->
  InvoiceFetcher._update_continuation_point subject_type package s = (Ok tt, s).
Proof.
  intros Ht Hl. unfold InvoiceFetcher._update_continuation_point.
  by rewrite Ht, Hl.
Qed.

Lemma truncated_without_last_date_witness :
  permanentStorageHwmDate Fixture.package_truncated_no_last = Some Fixture.D2
  /\ InvoiceFetcher._update_continuation_point "Subject2"
       Fixture.package_truncated_no_last Fixture.sys0 = (Ok tt, Fixture.sys0).
Proof.
  split; [reflexivity|].
  exact (truncated_without_last_date "Subject2" Fixture.package_truncated_no_last
           Fixture.sys0 eq_refl eq_refl).
Defined.

(** ** C5: the polling loops *)

Lemma advance_advance (n m : nat) (e1 e2 : list event) (s : Sys) :
  advance n e2 (advance m e1 s) = advance (n + m) (e1 ++ e2) s.
Proof.
  unfold advance; cbn. f_equal.
  - lia.
  - by rewrite <- List.app_assoc.
Qed.

Lemma advance_0_nil (s : Sys) : advance 0 [] s = s.
Proof. destruct s. unfold advance; cbn. by rewrite app_nil_r. Qed.

Lemma in_progress_tests (c : Z) :
  in_progress c -> (c =? 200)%Z = false /\ (c >=? 400)%Z = false.
Proof.
  intros [H1 H2]. rewrite Z.geb_leb. split.
  - by apply Z.eqb_neq.
  - apply Z.leb_gt. lia.
Qed.

Lemma answers_codes_cons (answer : nat -> reply StatusResponse) (t : nat)
    (c : Z) (codes : list Z) :
  answers_codes answer t (c :: codes) ->
  (exists data, answer t = Reply data /\ KSeFClient.status_code data = Some c)
  /\ answers_codes answer (S t) codes.
Proof.
  intros H. split.
  - destruct (H 0 c eq_refl) as (data & Hd & Hc).
    rewrite Nat.add_0_r in Hd. eauto.
  - intros i c' Hi. destruct (H (S i) c' Hi) as (data & Hd & Hc).
    rewrite Nat.add_succ_r in Hd. eauto.
Qed.

Lemma rounds_S (n : nat) (call : event) (seconds : nat) :
  rounds (S n) call seconds = [call; Sleep seconds] ++ rounds n call seconds.
Proof. reflexivity. Qed.

Section AuthPolling.
Context (platform : Platform) (reference_number auth_token : string).

Let call := GET_auth_status reference_number auth_token.
Let loop := KSeFClient.wait_for_auth_loop platform reference_number auth_token.

(** Codes that keep the loop going use up one attempt each. *)
Lemma wait_for_auth_loop_in_progress (codes : list Z) (attempts : nat) (s : Sys) :
  Forall in_progress codes ->
  answers_codes (auth_status_reply platform) (tick s) codes ->
  loop (length codes + attempts) s
  = loop attempts (advance (length codes) (rounds (length codes) call 2) s).
Proof.
  intros Hall. revert s.
  induction Hall as [|c codes Hc _ IH]; intros s Hans.
  - cbn. by rewrite advance_0_nil.
  - apply answers_codes_cons in Hans as ((data & Hd & Hcode) & Hrest).
    destruct (in_progress_tests c Hc) as [H200 H400].
    cbn [length Nat.add]. subst loop. cbn [KSeFClient.wait_for_auth_loop].
    unfold bind at 1. unfold http at 1. rewrite Hd, Hcode, H200, H400.
    unfold bind at 1. cbn [sleep modify].
    change (interact [GET_auth_status reference_number auth_token] s)
      with (advance 1 [call] s).
    match goal with
    | |- KSeFClient.wait_for_auth_loop _ _ _ _ ?s1 = _ =>
        change s1 with (advance 0 [Sleep 2] (advance 1 [call] s))
    end.
    rewrite advance_advance. rewrite IH.
    + rewrite advance_advance. rewrite rounds_S.
      f_equal. f_equal. lia.
    + exact Hrest.
Qed.

(** N codes in progress and then 200: success after N+1 calls. *)
Lemma wait_for_auth_loop_success (codes : list Z) (attempts : nat) (s : Sys) :
  Forall in_progress codes ->
  answers_codes (auth_status_reply platform) (tick s) (codes ++ [200%Z]) ->
  loop (length codes + S attempts) s
  = (Ok tt, advance (S (length codes)) (rounds (length codes) call 2 ++ [call]) s).
Proof.
  intros Hall Hans.
  rewrite wait_for_auth_loop_in_progress; [|done|].
  2:{ intros i c Hi. apply (Hans i c). by apply lookup_app_l_Some. }
  destruct (Hans (length codes) 200%Z) as (data & Hd & Hcode).
  { by rewrite list_lookup_middle. }
  subst loop. cbn [KSeFClient.wait_for_auth_loop].
  unfold bind at 1. unfold http at 1.
  cbn [tick advance]. rewrite (Nat.add_comm (length codes) (tick s)).
  rewrite Hd, Hcode. cbn [Z.eqb Pos.eqb ret].
  change (interact [GET_auth_status reference_number auth_token] ?x)
    with (advance 1 [call] x).
  by rewrite advance_advance.
Qed.

(** As many codes in progress as there are attempts: timeout. *)
Lemma wait_for_auth_loop_timeout (codes : list Z) (s : Sys) :
  Forall in_progress codes ->
  answers_codes (auth_status_reply platform) (tick s) codes ->
  loop (length codes) s
  = (Raise (Exception "Timeout podczas oczekiwania na uwierzytelnienie"),
     advance (length codes) (rounds (length codes) call 2) s).
Proof.
  intros Hall Hans.
  rewrite <- (Nat.add_0_r (length codes)) at 1.
  by rewrite wait_for_auth_loop_in_progress.
Qed.

(** N codes in progress and then a code of 400 or more: failure with the
    description of the reply. *)
Lemma wait_for_auth_loop_failure (codes : list Z) (attempts : nat) (s : Sys)
    (data : StatusResponse) (c : Z) :
  Forall in_progress codes ->
  answers_codes (auth_status_reply platform) (tick s) codes ->
  auth_status_reply platform (tick s + length codes) = Reply data ->
  KSeFClient.status_code data = Some c -> (c >= 400)%Z ->
  loop (length codes + S attempts) s
  = (Raise (Exception ("Uwierzytelnianie nie powiodło się: "
                       ++ KSeFClient.status_description data)%string),
     advance (S (length codes)) (rounds (length codes) call 2 ++ [call]) s).
Proof.
  intros Hall Hans Hd Hcode Hc.
  rewrite wait_for_auth_loop_in_progress by done.
  subst loop. cbn [KSeFClient.wait_for_auth_loop].
  unfold bind at 1. unfold http at 1.
  cbn [tick advance]. rewrite (Nat.add_comm (length codes) (tick s)).
  rewrite Hd, Hcode.
  assert (H200 : (c =? 200)%Z = false) by (apply Z.eqb_neq; lia).
  assert (H400 : (c >=? 400)%Z = true) by (rewrite Z.geb_leb; apply Z.leb_le; lia).
  rewrite H200, H400. cbn [raise].
  change (interact [GET_auth_status reference_number auth_token] ?x)
    with (advance 1 [call] x).
  by rewrite advance_advance.
Qed.

End AuthPolling.

Section ExportPolling.
Context (platform : Platform) (reference_number : string).

Let call := GET_invoices_exports reference_number.
Let loop := InvoiceFetcher.wait_for_export_loop platform reference_number.

Lemma get_export_status_reply (s : Sys) (data : StatusResponse) :
  get_truthy (access_token s) = true ->
  export_status_reply platform (tick s) = Reply data ->
  KSeFClient.get_export_status platform reference_number s
  = (Ok data, advance 1 [call] s).
Proof.
  intros Htok Hd. unfold KSeFClient.get_export_status, bind, gets.
  rewrite Htok. cbn [negb]. unfold http. by rewrite Hd.
Qed.

Lemma wait_for_export_loop_in_progress (codes : list Z) (attempts : nat) (s : Sys) :
  get_truthy (access_token s) = true ->
  Forall in_progress codes ->
  answers_codes (export_status_reply platform) (tick s) codes ->
  loop (length codes + attempts) s
  = loop attempts (advance (length codes) (rounds (length codes) call 5) s).
Proof.
  intros Htok Hall. revert s Htok.
  induction Hall as [|c codes Hc _ IH]; intros s Htok Hans.
  - cbn. by rewrite advance_0_nil.
  - apply answers_codes_cons in Hans as ((data & Hd & Hcode) & Hrest).
    destruct (in_progress_tests c Hc) as [H200 H400].
    cbn [length Nat.add]. subst loop. cbn [InvoiceFetcher.wait_for_export_loop].
    unfold bind at 1. rewrite (get_export_status_reply s data) by done.
    rewrite Hcode, H200, H400.
    unfold bind at 1. cbn [sleep modify].
    match goal with
    | |- InvoiceFetcher.wait_for_export_loop _ _ _ ?s1 = _ =>
        change s1 with (advance 0 [Sleep 5] (advance 1 [call] s))
    end.
    rewrite advance_advance. rewrite IH; [|done|exact Hrest].
    rewrite advance_advance. rewrite rounds_S.
    f_equal. f_equal. lia.
Qed.

Lemma wait_for_export_loop_success (codes : list Z) (attempts : nat) (s : Sys) :
  get_truthy (access_token s) = true ->
  Forall in_progress codes ->
  answers_codes (export_status_reply platform) (tick s) (codes ++ [200%Z]) ->
  exists data,
    export_status_reply platform (tick s + length codes) = Reply data
    /\ loop (length codes + S attempts) s
       = (Ok data,
          advance (S (length codes)) (rounds (length codes) call 5 ++ [call]) s).
Proof.
  intros Htok Hall Hans.
  destruct (Hans (length codes) 200%Z) as (data & Hd & Hcode).
  { by rewrite list_lookup_middle. }
  exists data. split; [done|].
  rewrite wait_for_export_loop_in_progress; [|done..|].
  2:{ intros i c Hi. apply (Hans i c). by apply lookup_app_l_Some. }
  subst loop. cbn [InvoiceFetcher.wait_for_export_loop].
  unfold bind at 1. rewrite (get_export_status_reply _ data); [|done|].
  2:{ cbn [tick advance]. by rewrite (Nat.add_comm (length codes) (tick s)). }
  rewrite Hcode. cbn [Z.eqb Pos.eqb ret].
  by rewrite advance_advance.
Qed.

Lemma wait_for_export_loop_timeout (codes : list Z) (s : Sys) :
  get_truthy (access_token s) = true ->
  Forall in_progress codes ->
  answers_codes (export_status_reply platform) (tick s) codes ->
  loop (length codes) s
  = (Raise (Exception "Timeout podczas oczekiwania na eksport"),
     advance (length codes) (rounds (length codes) call 5) s).
Proof.
  intros Htok Hall Hans.
  rewrite <- (Nat.add_0_r (length codes)) at 1.
  by rewrite wait_for_export_loop_in_progress.
Qed.

Lemma wait_for_export_loop_failure (codes : list Z) (attempts : nat) (s : Sys)
    (data : StatusResponse) (c : Z) :
  get_truthy (access_token s) = true ->
  Forall in_progress codes ->
  answers_codes (export_status_reply platform) (tick s) codes ->
  export_status_reply platform (tick s + length codes) = Reply data ->
  KSeFClient.status_code data = Some c -> (c >= 400)%Z ->
  loop (length codes + S attempts) s
  = (Raise (Exception ("Eksport nie powiódł się: "
                       ++ KSeFClient.status_description data)%string),
     advance (S (length codes)) (rounds (length codes) call 5 ++ [call]) s).
Proof.
  intros Htok Hall Hans Hd Hcode Hc.
  rewrite wait_for_export_loop_in_progress by done.
  subst loop. cbn [InvoiceFetcher.wait_for_export_loop].
  unfold bind at 1. rewrite (get_export_status_reply _ data); [|done|].
  2:{ cbn [tick advance]. by rewrite (Nat.add_comm (length codes) (tick s)). }
  rewrite Hcode.
  assert (H200 : (c =? 200)%Z = false) by (apply Z.eqb_neq; lia).
  assert (H400 : (c >=? 400)%Z = true) by (rewrite Z.geb_leb; apply Z.leb_le; lia).
  rewrite H200, H400. cbn [raise].
  by rewrite advance_advance.
Qed.

End ExportPolling.

(** C5: for the authentication loop (ceiling 10, interval 2) and for the
    export loop (ceiling 60, interval 5, on an authenticated client): when
    the status calls are answered with N codes in progress (neither 200 nor
    400 or above) and then 200, N below the ceiling, the loop returns
    successfully after exactly N+1 status calls, the last event being the
    call and not a sleep; when as many codes in progress arrive as the
    ceiling allows attempts, the loop raises the timeout error; and when the
    codes in progress are followed by a code of 400 or more, the loop raises
    a failure whose message carries the description of that reply. *)
Theorem polling_loops (platform : Platform) (reference_number auth_token : string)
    (s : Sys) (codes : list Z) :
  Forall in_progress codes ->
  let n := length codes in
  let auth_call := GET_auth_status reference_number auth_token in
  let export_call := GET_invoices_exports reference_number in
  let auth_answers := answers_codes (auth_status_reply platform) (tick s) in
  let export_answers := answers_codes (export_status_reply platform) (tick s) in
  ((n < 10 -> auth_answers (codes ++ [200%Z]) ->
      KSeFClient._wait_for_auth_completion platform reference_number auth_token s
      = (Ok tt, advance (S n) (rounds n auth_call 2 ++ [auth_call]) s))
   /\ (n = 10 -> auth_answers codes ->
      KSeFClient._wait_for_auth_completion platform reference_number auth_token s
      = (Raise (Exception "Timeout podczas oczekiwania na uwierzytelnienie"),
         advance n (rounds n auth_call 2) s))
   /\ (forall (c : Z) (d : string) (pkg : option Package),
      n < 10 -> auth_answers codes ->
      auth_status_reply platform (tick s + n)
      = Reply {| status := Some {| code := Some c; description := Some d |};
                 package := pkg |} ->
      (c >= 400)%Z ->
      KSeFClient._wait_for_auth_completion platform reference_number auth_token s
      = (Raise (Exception ("Uwierzytelnianie nie powiodło się: " ++ d)%string),
         advance (S n) (rounds n auth_call 2 ++ [auth_call]) s)))
  /\ (get_truthy (access_token s) = true ->
      (n < 60 -> export_answers (codes ++ [200%Z]) ->
         exists data,
           export_status_reply platform (tick s + n) = Reply data
           /\ InvoiceFetcher._wait_for_export_completion platform reference_number s
              = (Ok data, advance (S n) (rounds n export_call 5 ++ [export_call]) s))
      /\ (n = 60 -> export_answers codes ->
         InvoiceFetcher._wait_for_export_completion platform reference_number s
         = (Raise (Exception "Timeout podczas oczekiwania na eksport"),
            advance n (rounds n export_call 5) s))
      /\ (forall (c : Z) (d : string) (pkg : option Package),
         n < 60 -> export_answers codes ->
         export_status_reply platform (tick s + n)
         = Reply {| status := Some {| code := Some c; description := Some d |};
                    package := pkg |} ->
         (c >= 400)%Z ->
         InvoiceFetcher._wait_for_export_completion platform reference_number s
         = (Raise (Exception ("Eksport nie powiódł się: " ++ d)%string),
            advance (S n) (rounds n export_call 5 ++ [export_call]) s))).
Proof.
  intros Hall. cbv zeta.
  unfold KSeFClient._wait_for_auth_completion,
    InvoiceFetcher._wait_for_export_completion,
    KSeFClient.auth_max_attempts, InvoiceFetcher.export_max_attempts.
  split; [split; [|split]|intros Htok; split; [|split]].
  - intros Hn Hans.
    replace 10 with (length codes + S (9 - length codes)) by lia.
    by apply wait_for_auth_loop_success.
  - intros Hn Hans. rewrite <- Hn.
    by apply wait_for_auth_loop_timeout.
  - intros c d pkg Hn Hans Hd Hc.
    replace 10 with (length codes + S (9 - length codes)) by lia.
    by rewrite (wait_for_auth_loop_failure platform reference_number auth_token
                  codes (9 - length codes) s _ c Hall Hans Hd eq_refl Hc).
  - intros Hn Hans.
    replace 60 with (length codes + S (59 - length codes)) by lia.
    by apply wait_for_export_loop_success.
  - intros Hn Hans. rewrite <- Hn.
    by apply wait_for_export_loop_timeout.
  - intros c d pkg Hn Hans Hd Hc.
    replace 60 with (length codes + S (59 - length codes)) by lia.
    by rewrite (wait_for_export_loop_failure platform reference_number
                  codes (59 - length codes) s _ c Htok Hall Hans Hd eq_refl Hc).
Qed.

Lemma in_progress_100 (n : nat) : Forall in_progress (replicate n 100%Z).
Proof.
  apply Forall_forall. intros c Hc. apply elem_of_replicate in Hc as [-> _].
  split; [discriminate|reflexivity].
Defined.

(** The script answers [n] codes in progress from interaction [t] on, when
    these all fall between 3 and the last pending interaction. *)
Lemma status_script_pending (last t n : nat) :
  3 <= t -> t + n <= S last ->
  answers_codes (Fixture.status_script last) t (replicate n 100%Z).
Proof.
  intros Ht Hn i c Hi. apply lookup_replicate in Hi as [-> Hi].
  exists (Fixture.status_with 100 None). split; [|reflexivity].
  unfold Fixture.status_script.
  destruct (Nat.ltb_spec (t + i) 2); [lia|].
  destruct (Nat.eqb_spec (t + i) 2); [lia|].
  destruct (Nat.leb_spec (t + i) last); [reflexivity|lia].
Defined.

Lemma status_script_start (last : nat) :
  answers_codes (Fixture.status_script last) 0 ([100; 100] ++ [200])%Z.
Proof.
  intros i c.
  destruct i as [|[|[|i]]]; cbn; intros [= <-]; eexists; split; reflexivity.
Defined.

Lemma polling_loops_witness :
  let p := Fixture.polling_platform in
  let auth_call := GET_auth_status "ref" "tok" in
  let export_call := GET_invoices_exports "ref" in
  KSeFClient._wait_for_auth_completion p "ref" "tok" (Fixture.sys_at 0)
  = (Ok tt, advance 3 (rounds 2 auth_call 2 ++ [auth_call]) (Fixture.sys_at 0))
  /\ KSeFClient._wait_for_auth_completion p "ref" "tok" (Fixture.sys_at 3)
     = (Raise (Exception "Timeout podczas oczekiwania na uwierzytelnienie"),
        advance 10 (rounds 10 auth_call 2) (Fixture.sys_at 3))
  /\ KSeFClient._wait_for_auth_completion p "ref" "tok" (Fixture.sys_at 11)
     = (Raise (Exception "Uwierzytelnianie nie powiodło się: Invalid token"),
        advance 3 (rounds 2 auth_call 2 ++ [auth_call]) (Fixture.sys_at 11))
  /\ (exists data,
        InvoiceFetcher._wait_for_export_completion p "ref" (Fixture.sys_at 0)
        = (Ok data, advance 3 (rounds 2 export_call 5 ++ [export_call])
                            (Fixture.sys_at 0)))
  /\ InvoiceFetcher._wait_for_export_completion p "ref" (Fixture.sys_at 3)
     = (Raise (Exception "Timeout podczas oczekiwania na eksport"),
        advance 60 (rounds 60 export_call 5) (Fixture.sys_at 3))
  /\ InvoiceFetcher._wait_for_export_completion p "ref" (Fixture.sys_at 61)
     = (Raise (Exception "Eksport nie powiódł się: Invalid token"),
        advance 3 (rounds 2 export_call 5 ++ [export_call]) (Fixture.sys_at 61)).
Proof.
  intros p auth_call export_call.
  pose proof (polling_loops p "ref" "tok" (Fixture.sys_at 0) [100; 100]%Z
                (in_progress_100 2)) as H0.
  pose proof (polling_loops p "ref" "tok" (Fixture.sys_at 3) (replicate 10 100%Z)
                (in_progress_100 10)) as H3.
  pose proof (polling_loops p "ref" "tok" (Fixture.sys_at 11) [100; 100]%Z
                (in_progress_100 2)) as H11.
  pose proof (polling_loops p "ref" "tok" (Fixture.sys_at 3) (replicate 60 100%Z)
                (in_progress_100 60)) as H3e.
  pose proof (polling_loops p "ref" "tok" (Fixture.sys_at 61) [100; 100]%Z
                (in_progress_100 2)) as H61.
  cbv zeta in H0, H3, H11, H3e, H61.
  destruct H0 as [(Ha & _ & _) He]. destruct (He eq_refl) as (He0 & _ & _).
  destruct H3 as [(_ & Hb & _) _].
  destruct H11 as [(_ & _ & Hc) _].
  destruct H3e as [_ He3]. destruct (He3 eq_refl) as (_ & Hd & _).
  destruct H61 as [_ He61]. destruct (He61 eq_refl) as (_ & _ & Hf).
  split; [|split; [|split; [|split; [|split]]]].
  - apply Ha; [cbn; lia|apply status_script_start].
  - apply Hb; [reflexivity|].
    apply (status_script_pending 12 3 10); cbn; lia.
  - apply (Hc 450%Z "Invalid token" None); [cbn; lia| |reflexivity|lia].
    apply (status_script_pending 12 11 2); cbn; lia.
  - destruct He0 as (data & _ & Hrun); [cbn; lia|apply status_script_start|].
    exists data. exact Hrun.
  - apply Hd; [reflexivity|].
    apply (status_script_pending 62 3 60); cbn; lia.
  - apply (Hf 450%Z "Invalid token" None); [cbn; lia| |reflexivity|lia].
    apply (status_script_pending 62 61 2); cbn; lia.
Defined.

(** ** Frame reasoning

    A relation between the system before and after, closed under
    sequencing, holds of a whole function as soon as it holds of the steps
    the function is made of. *)

Section Respects.
Context (R : Sys -> Sys -> Prop).
Context (ok_event : event -> Prop).
Hypothesis R_refl : forall s, R s s.
Hypothesis R_trans : forall s1 s2 s3, R s1 s2 -> R s2 s3 -> R s1 s3.
Hypothesis R_advance :
  forall n evs s, Forall ok_event evs -> R s (advance n evs s).

Lemma respects_ret {A} (a : A) : respects R (ret a).
Proof. intros s. apply R_refl. Qed.

Lemma respects_raise {A} (e : exn) : respects R (@raise A e).
Proof. intros s. apply R_refl. Qed.

Lemma respects_gets {A} (f : Sys -> A) : respects R (gets f).
Proof. intros s. apply R_refl. Qed.

Lemma respects_modify (f : Sys -> Sys) :
  (forall s, R s (f s)) -> respects R (modify f).
Proof. intros Hf s. apply Hf. Qed.

Lemma respects_bind {A B} (m : M A) (k : A -> M B) :
  respects R m -> (forall a, respects R (k a)) -> respects R (bind m k).
Proof.
  intros Hm Hk s. unfold bind. specialize (Hm s).
  destruct (m s) as [[a|e] s1]; [|exact Hm].
  exact (R_trans _ _ _ Hm (Hk a s1)).
Qed.

Lemma respects_for_each {A} (l : list A) (body : A -> M unit) :
  (forall x, respects R (body x)) -> respects R (for_each l body).
Proof.
  intros Hbody. induction l as [|x l IH]; cbn [for_each].
  - apply respects_ret.
  - apply respects_bind; [apply Hbody|intros _; exact IH].
Qed.

Lemma respects_http {A} (ev : event) (answer : nat -> reply A) :
  ok_event ev -> respects R (http ev answer).
Proof.
  intros Hev s. unfold http.
  destruct (answer (tick s)); apply (R_advance 1 [ev]); by constructor.
Qed.

Lemma respects_sleep (seconds : nat) :
  ok_event (Sleep seconds) -> respects R (sleep seconds).
Proof. intros Hev s. apply (R_advance 0 [Sleep seconds]). by constructor. Qed.

Lemma respects_os_urandom (platform : Platform) (n : nat) :
  respects R (KSeFClient.os_urandom platform n).
Proof. intros s. apply (R_advance 1 []). constructor. Qed.

Lemma respects_datetime_now_utc (platform : Platform) :
  respects R (InvoiceFetcher.datetime_now_utc platform).
Proof. intros s. apply (R_advance 1 []). constructor. Qed.

Ltac respects_step :=
  lazymatch goal with
  | |- respects _ (bind _ _) => apply respects_bind; [|intros ?]
  | |- respects _ (ret _) => apply respects_ret
  | |- respects _ (raise _) => apply respects_raise
  | |- respects _ (gets _) => apply respects_gets
  | |- respects _ (KSeFClient.os_urandom _ _) => apply respects_os_urandom
  | |- respects _ (InvoiceFetcher.datetime_now_utc _) => apply respects_datetime_now_utc
  | |- respects _ (if ?b then _ else _) => destruct b
  | |- respects _ (match ?x with _ => _ end) => destruct x
  end.

(** *** Requesting an export and polling for it *)

Hypothesis ok_export_request :
  forall subject_type date_from date_to ekey iv,
    ok_event (POST_invoices_exports subject_type date_from date_to ekey iv).
Hypothesis ok_export_status : forall ref, ok_event (GET_invoices_exports ref).
Hypothesis ok_sleep : forall seconds, ok_event (Sleep seconds).

Lemma respects_export_invoices (lib : Library) (platform : Platform)
    (subject_type date_from : string) (date_to : option string)
    (key iv : option (list byte)) :
  respects R (KSeFClient.export_invoices lib platform subject_type date_from
                                         date_to key iv).
Proof.
  unfold KSeFClient.export_invoices.
  repeat respects_step. apply respects_http, ok_export_request.
Qed.

Lemma respects_get_export_status (platform : Platform) (ref : string) :
  respects R (KSeFClient.get_export_status platform ref).
Proof.
  unfold KSeFClient.get_export_status.
  repeat respects_step. apply respects_http, ok_export_status.
Qed.

Lemma respects_wait_for_export_loop (platform : Platform) (ref : string)
    (attempts : nat) :
  respects R (InvoiceFetcher.wait_for_export_loop platform ref attempts).
Proof.
  induction attempts as [|attempts IH]; cbn [InvoiceFetcher.wait_for_export_loop].
  - apply respects_raise.
  - apply respects_bind; [apply respects_get_export_status|intros data].
    repeat respects_step; try exact IH. apply respects_sleep, ok_sleep.
Qed.

(** *** The rest of the run *)

Hypothesis ok_any : forall e, ok_event e.
Hypothesis R_access_token : forall v s, R s (set_access_token v s).
Hypothesis R_state : forall v s, R s (set_state v s).

Lemma respects_wait_for_auth_loop (platform : Platform) (ref tok : string)
    (attempts : nat) :
  respects R (KSeFClient.wait_for_auth_loop platform ref tok attempts).
Proof.
  induction attempts as [|attempts IH]; cbn [KSeFClient.wait_for_auth_loop].
  - apply respects_raise.
  - apply respects_bind; [apply respects_http, ok_any|intros data].
    repeat respects_step; try exact IH. apply respects_sleep, ok_any.
Qed.

Lemma respects_authenticate (lib : Library) (platform : Platform)
    (ksef_token context_nip : string) :
  respects R (KSeFClient.authenticate lib platform ksef_token context_nip).
Proof.
  unfold KSeFClient.authenticate, KSeFClient._get_challenge,
    KSeFClient._submit_auth, KSeFClient._wait_for_auth_completion,
    KSeFClient._redeem_token.
  repeat first
    [ apply respects_wait_for_auth_loop
    | apply respects_http, ok_any
    | apply respects_modify, R_access_token
    | respects_step ].
Qed.

Lemma respects_download_parts (platform : Platform) (parts : list string) :
  respects R (InvoiceFetcher.download_parts platform parts).
Proof.
  induction parts as [|url parts IH]; cbn [InvoiceFetcher.download_parts].
  - apply respects_ret.
  - unfold KSeFClient.download_package_part.
    repeat first [ exact IH | apply respects_http, ok_any | respects_step ].
Qed.

Lemma respects_update_continuation_point (subject_type : string) (package : Package) :
  respects R (InvoiceFetcher._update_continuation_point subject_type package).
Proof.
  unfold InvoiceFetcher._update_continuation_point.
  repeat first [ apply respects_modify; intros s; apply R_state | respects_step ].
Qed.

Hypothesis respects_save_invoice :
  forall zf filename metadata,
    respects R (InvoiceFetcher._save_invoice zf filename metadata).

Lemma respects_extract_invoices (lib : Library) (zf : ZipFile) :
  respects R (InvoiceFetcher.extract_invoices lib zf).
Proof.
  unfold InvoiceFetcher.extract_invoices, InvoiceFetcher.read_metadata.
  apply respects_bind; [repeat respects_step|intros metadata].
  apply respects_for_each. intros filename.
  destruct (endswith filename ".xml");
    [apply respects_save_invoice|apply respects_ret].
Qed.

Lemma respects_process_package (lib : Library) (platform : Platform)
    (package : Package) (key iv : list byte) :
  respects R (InvoiceFetcher._process_package lib platform package key iv).
Proof.
  unfold InvoiceFetcher._process_package.
  destruct (default [] (parts package)) as [|part rest]; [apply respects_ret|].
  apply respects_bind; [apply respects_download_parts|intros data].
  repeat first [ apply respects_extract_invoices | respects_step ].
Qed.

Lemma respects_fetch_for_subject_type (lib : Library) (platform : Platform)
    (subject_type : string) :
  respects R (InvoiceFetcher._fetch_for_subject_type lib platform subject_type).
Proof.
  unfold InvoiceFetcher._fetch_for_subject_type,
    InvoiceFetcher._wait_for_export_completion.
  repeat first
    [ apply respects_export_invoices
    | apply respects_wait_for_export_loop
    | apply respects_process_package
    | apply respects_update_continuation_point
    | respects_step ].
Qed.

Lemma respects_fetch_all (lib : Library) (platform : Platform)
    (subject_types : list string) :
  respects R (for_each subject_types
                (InvoiceFetcher._fetch_for_subject_type lib platform)).
Proof. apply respects_for_each, respects_fetch_for_subject_type. Qed.

End Respects.

(** ** [_save_invoice] *)

Lemma save_invoice_cases (zf : ZipFile) (filename : string)
    (metadata : option (option (list string))) (s : Sys) :
  let k := InvoiceFetcher.derive_ksef_number metadata filename in
  InvoiceFetcher._save_invoice zf filename metadata s
  = if bool_decide (k ∈ downloaded_invoices s) then (Ok tt, s)
    else match faktury s !! filename with
         | Some _ =>
             (Ok tt, set_downloaded_invoices ({[k]} ∪ downloaded_invoices s) s)
         | None =>
             match zf_read zf filename with
             | None => (Raise KeyError, s)
             | Some content =>
                 (Ok tt,
                  {| access_token := access_token s; state := state s;
                     downloaded_invoices := {[k]} ∪ downloaded_invoices s;
                     new_invoices :=
                       new_invoices s ++ [{| ksefNumber := k; filename := filename |}];
                     state_file := state_file s;
                     faktury := <[filename := content]> (faktury s);
                     tick := tick s; trace := trace s |})
             end
         end.
Proof.
  cbv zeta. unfold InvoiceFetcher._save_invoice, bind, gets.
  destruct (bool_decide _); [reflexivity|].
  destruct (faktury s !! filename); [reflexivity|].
  destruct (zf_read zf filename); reflexivity.
Qed.

(** An entry listed by the archive can be read. *)
Lemma zf_read_namelist (zf : ZipFile) (name : string) :
  name ∈ namelist zf -> is_Some (zf_read zf name).
Proof.
  intros Hin. unfold zf_read, namelist in *.
  apply list_elem_of_fmap in Hin as ([n content] & -> & Hin).
  destruct (List.find _ (rev zf)) as [entry|] eqn:Hfind; [by eexists|].
  exfalso.
  assert (Hnone : String.eqb (n, content).1 (n, content).1 = false).
  { apply (List.find_none _ _ Hfind (n, content)).
    apply in_rev. rewrite rev_involutive. by apply list_elem_of_In. }
  cbn in Hnone. by rewrite String.eqb_refl in Hnone.
Qed.

(** ** C10: the deduplication invariant *)

Lemma dedup_inv_save_invoice (zf : ZipFile) (filename : string)
    (metadata : option (option (list string))) :
  respects keeps_dedup_inv (InvoiceFetcher._save_invoice zf filename metadata).
Proof.
  intros s [Hnodup Hseen]. rewrite save_invoice_cases. cbv zeta.
  set (k := InvoiceFetcher.derive_ksef_number metadata filename).
  destruct (bool_decide (k ∈ downloaded_invoices s)) eqn:Hk; [by split|].
  apply bool_decide_eq_false in Hk.
  destruct (faktury s !! filename).
  - split; [done|]. cbn. intros r Hr. apply elem_of_union_r. by apply Hseen.
  - destruct (zf_read zf filename) as [content|]; [|by split].
    split; cbn.
    + rewrite map_app. apply NoDup_app. split; [done|]. split.
      * intros x Hx Hx'. cbn in Hx'. apply list_elem_of_singleton in Hx'. subst x.
        apply list_elem_of_fmap in Hx as (r & -> & Hr). apply Hk. by apply Hseen.
      * cbn. apply NoDup_singleton.
    + intros r Hr. apply elem_of_app in Hr as [Hr|Hr].
      * apply elem_of_union_r. by apply Hseen.
      * apply list_elem_of_singleton in Hr. subst r. cbn.
        apply elem_of_union_l. by apply elem_of_singleton.
Qed.

Section DedupInvariant.
Context (lib : Library) (platform : Platform).

Let any_event : event -> Prop := fun _ => True.

Local Lemma keeps_dedup_inv_refl (s : Sys) : keeps_dedup_inv s s.
Proof. intros H. exact H. Qed.

Local Lemma keeps_dedup_inv_trans (s1 s2 s3 : Sys) :
  keeps_dedup_inv s1 s2 -> keeps_dedup_inv s2 s3 -> keeps_dedup_inv s1 s3.
Proof. intros H12 H23 H. exact (H23 (H12 H)). Qed.

Local Lemma keeps_dedup_inv_advance (n : nat) (evs : list event) (s : Sys) :
  Forall any_event evs -> keeps_dedup_inv s (advance n evs s).
Proof. intros _ H. exact H. Qed.

Lemma dedup_inv_process_package (package : Package) (key iv : list byte) :
  respects keeps_dedup_inv
    (InvoiceFetcher._process_package lib platform package key iv).
Proof.
  apply (respects_process_package keeps_dedup_inv any_event
           keeps_dedup_inv_refl keeps_dedup_inv_trans keeps_dedup_inv_advance
           (fun _ => I) dedup_inv_save_invoice).
Qed.

Lemma dedup_inv_fetch_all (subject_types : list string) :
  respects keeps_dedup_inv
    (for_each subject_types (InvoiceFetcher._fetch_for_subject_type lib platform)).
Proof.
  apply (respects_fetch_all keeps_dedup_inv any_event
           keeps_dedup_inv_refl keeps_dedup_inv_trans keeps_dedup_inv_advance
           (fun _ _ _ _ _ => I) (fun _ => I) (fun _ => I) (fun _ => I)
           (fun _ _ H => H) dedup_inv_save_invoice).
Qed.

Lemma dedup_inv_authenticate (ksef_token context_nip : string) :
  respects keeps_dedup_inv
    (KSeFClient.authenticate lib platform ksef_token context_nip).
Proof.
  apply (respects_authenticate keeps_dedup_inv any_event
           keeps_dedup_inv_refl keeps_dedup_inv_trans keeps_dedup_inv_advance
           (fun _ => I) (fun _ _ H => H)).
Qed.

Lemma dedup_inv_fetch_invoices (ksef_token context_nip : string) :
  respects keeps_dedup_inv
    (InvoiceFetcher.fetch_invoices lib platform ksef_token context_nip).
Proof.
  unfold InvoiceFetcher.fetch_invoices.
  apply (respects_bind _ keeps_dedup_inv_trans);
    [apply dedup_inv_authenticate|intros _].
  apply (respects_bind _ keeps_dedup_inv_trans);
    [apply dedup_inv_fetch_all|intros _].
  apply (respects_bind _ keeps_dedup_inv_trans); [|intros _].
  - intros s H. exact H.
  - unfold InvoiceFetcher._format_output.
    apply (respects_bind _ keeps_dedup_inv_trans); [|intros new];
      intros s H; exact H.
Qed.

End DedupInvariant.

Lemma dedup_inv_init (s : Sys) : dedup_inv (InvoiceFetcher.__init__ s).2.
Proof.
  split; cbn.
  - constructor.
  - intros r Hr. by apply elem_of_nil in Hr.
Qed.

(** C10: the list of new records never holds two records with one
    identifier, and every identifier in it is in the seen-set.  This holds
    when the fetcher is constructed, and every operation that runs after
    that keeps it, whether it returns or raises: [_save_invoice], the only
    one that changes the list or the seen-set (it adds the identifier to
    the seen-set before it appends the record, and the state in between
    satisfies the invariant too), [_process_package], the loop over any
    number of subject-roles, and the whole run; so it holds of the state a
    run of a constructed fetcher ends in. *)
Theorem new_invoices_have_distinct_seen_identifiers
    (lib : Library) (platform : Platform) (ksef_token context_nip : string) :
  (forall s, dedup_inv (InvoiceFetcher.__init__ s).2)
  /\ (forall zf filename metadata s,
        dedup_inv s ->
        dedup_inv (InvoiceFetcher._save_invoice zf filename metadata s).2)
  /\ (forall ksef_number s,
        dedup_inv s ->
        dedup_inv (set_downloaded_invoices
                     ({[ksef_number]} ∪ downloaded_invoices s) s))
  /\ (forall package key iv s,
        dedup_inv s ->
        dedup_inv (InvoiceFetcher._process_package lib platform package key iv s).2)
  /\ (forall subject_types s,
        dedup_inv s ->
        dedup_inv (for_each subject_types
                     (InvoiceFetcher._fetch_for_subject_type lib platform) s).2)
  /\ (forall s,
        dedup_inv s ->
        dedup_inv (InvoiceFetcher.fetch_invoices lib platform ksef_token
                     context_nip s).2)
  /\ (forall s,
        dedup_inv (InvoiceFetcher.fetch_invoices lib platform ksef_token
                     context_nip (InvoiceFetcher.__init__ s).2).2).
Proof.
  split; [exact dedup_inv_init|].
  split; [intros zf filename metadata s; apply dedup_inv_save_invoice|].
  split.
  { intros k s [Hnodup Hseen]. split; [exact Hnodup|].
    intros r Hr. cbn. apply elem_of_union_r. by apply Hseen. }
  split; [intros package key iv s; apply dedup_inv_process_package|].
  split; [intros subject_types s; apply dedup_inv_fetch_all|].
  split; [intros s; apply dedup_inv_fetch_invoices|].
  intros s. apply dedup_inv_fetch_invoices, dedup_inv_init.
Qed.

Lemma new_invoices_have_distinct_seen_identifiers_witness :
  dedup_inv Fixture.fresh
  /\ dedup_inv (InvoiceFetcher.fetch_invoices Fixture.lib (Fixture.run_platform 100)
                  "token" "1234567890" Fixture.fresh).2
  /\ new_invoices (InvoiceFetcher.fetch_invoices Fixture.lib (Fixture.run_platform 100)
                     "token" "1234567890" Fixture.fresh).2
     = [{| ksefNumber := "1111-AAAA"; filename := "1111-AAAA.xml" |}].
Proof.
  pose proof (new_invoices_have_distinct_seen_identifiers Fixture.lib
                (Fixture.run_platform 100) "token" "1234567890")
    as (Hinit & _ & _ & _ & _ & Hrun & _).
  split; [exact (Hinit Fixture.sys0)|].
  split; [exact (Hrun Fixture.fresh (Hinit Fixture.sys0))|].
  vm_compute. reflexivity.
Defined.

(** ** C4: materializing a package twice *)

Lemma keeps_files_save_invoice (zf : ZipFile) (filename : string)
    (metadata : option (option (list string))) :
  respects keeps_files (InvoiceFetcher._save_invoice zf filename metadata).
Proof.
  intros s name Hname. rewrite save_invoice_cases. cbv zeta.
  destruct (bool_decide _); [done|].
  destruct (faktury s !! filename) eqn:Hf; [done|].
  destruct (zf_read zf filename) as [content|]; [|done].
  cbn. apply lookup_insert_is_Some.
  destruct (decide (filename = name)); [by left|by right].
Qed.

Lemma keeps_seen_save_invoice (zf : ZipFile) (filename : string)
    (metadata : option (option (list string))) :
  respects keeps_seen (InvoiceFetcher._save_invoice zf filename metadata).
Proof.
  intros s. rewrite save_invoice_cases. cbv zeta. unfold keeps_seen.
  destruct (bool_decide _); [done|].
  destruct (faktury s !! filename); [cbn; apply union_subseteq_r|].
  destruct (zf_read zf filename); [cbn; apply union_subseteq_r|done].
Qed.

Lemma keeps_seen_extract_invoices (lib : Library) (zf : ZipFile) :
  respects keeps_seen (InvoiceFetcher.extract_invoices lib zf).
Proof.
  apply respects_extract_invoices.
  - intros s. unfold keeps_seen. done.
  - intros s1 s2 s3. unfold keeps_seen. intros H12 H23. by transitivity (downloaded_invoices s2).
  - apply keeps_seen_save_invoice.
Qed.

Section SecondPass.
Context (zf : ZipFile) (metadata : option (option (list string))).

(** The body of the loop of [extract_invoices]. *)
Let body (filename : string) : M unit :=
  if endswith filename ".xml"
  then InvoiceFetcher._save_invoice zf filename metadata
  else ret tt.

Lemma keeps_files_body_loop (names : list string) :
  respects keeps_files (for_each names body).
Proof.
  apply respects_for_each.
  - intros s name H. exact H.
  - intros s1 s2 s3 H12 H23 name H. exact (H23 name (H12 name H)).
  - intros filename. unfold body. destruct (endswith filename ".xml").
    + apply keeps_files_save_invoice.
    + intros s name H. exact H.
Qed.

(** The first pass over a listed file: it returns, leaves the identifier
    seen, and if the identifier was not seen before, the file on disk. *)
Lemma first_pass_step (filename : string) (s0 : Sys) :
  filename ∈ namelist zf ->
  let k := InvoiceFetcher.derive_ksef_number metadata filename in
  exists s0',
    InvoiceFetcher._save_invoice zf filename metadata s0 = (Ok tt, s0')
    /\ downloaded_invoices s0' ⊆ {[k]} ∪ downloaded_invoices s0
    /\ (k ∈ downloaded_invoices s0 \/ is_Some (faktury s0' !! filename)).
Proof.
  intros Hin k. rewrite save_invoice_cases. cbv zeta. fold k.
  destruct (bool_decide (k ∈ downloaded_invoices s0)) eqn:Hk.
  { apply bool_decide_eq_true in Hk. exists s0.
    split; [done|]. split; [apply union_subseteq_r|by left]. }
  destruct (faktury s0 !! filename) as [old|] eqn:Hf.
  { eexists. split; [done|]. cbn. split; [done|]. right. by rewrite Hf. }
  destruct (zf_read_namelist zf filename Hin) as [content ->].
  eexists. split; [done|]. cbn. split; [done|].
  right. rewrite lookup_insert_eq. by eexists.
Qed.

(** The second pass writes nothing and records nothing: it can only add
    identifiers to the seen-set.  What it needs is that a document skipped
    by the first pass for an identifier seen from the start is, for the
    second pass, seen or on disk. *)
Lemma second_pass (names : list string) (s0 s2 : Sys) :
  (forall name, name ∈ names -> name ∈ namelist zf) ->
  (forall name, name ∈ names -> endswith name ".xml" = true ->
     InvoiceFetcher.derive_ksef_number metadata name ∈ downloaded_invoices s0 ->
     InvoiceFetcher.derive_ksef_number metadata name ∈ downloaded_invoices s2
     \/ is_Some (faktury s2 !! name)) ->
  keeps_files (for_each names body s0).2 s2 ->
  exists seen',
    for_each names body s2 = (Ok tt, set_downloaded_invoices seen' s2).
Proof.
  revert s0 s2.
  induction names as [|filename names IH]; intros s0 s2 Hnames Hskipped Hfiles.
  { exists (downloaded_invoices s2). by destruct s2. }
  assert (Htail : forall name, name ∈ names -> name ∈ namelist zf).
  { intros name Hn. apply Hnames. by right. }
  cbn [for_each] in *. unfold bind in *. unfold body at 1 in Hfiles. unfold body at 1.
  destruct (endswith filename ".xml") eqn:Hxml.
  2:{ cbn [ret] in *. apply (IH s0 s2); [done| |done].
      intros name Hn. apply Hskipped. by right. }
  destruct (first_pass_step filename s0) as (s0' & Hrun0 & Hseen0 & Hdisk0).
  { apply Hnames. by left. }
  rewrite Hrun0 in Hfiles.
  set (k := InvoiceFetcher.derive_ksef_number metadata filename) in *.
  (* what the first pass had seen after this file, the second has seen
     after it too, or finds on disk *)
  assert (Hnext : forall seen2' : gset string,
            downloaded_invoices s2 ⊆ seen2' -> k ∈ seen2' ->
            forall name, name ∈ names -> endswith name ".xml" = true ->
              InvoiceFetcher.derive_ksef_number metadata name ∈ downloaded_invoices s0' ->
              InvoiceFetcher.derive_ksef_number metadata name ∈ seen2'
              \/ is_Some (faktury s2 !! name)).
  { intros seen2' Hsub Hk name Hn Hx Hin.
    apply Hseen0 in Hin. apply elem_of_union in Hin as [Hin|Hin].
    - apply elem_of_singleton in Hin. rewrite Hin. by left.
    - destruct (Hskipped name (list_elem_of_further _ _ _ Hn) Hx Hin) as [H|H].
      + left. by apply Hsub.
      + by right. }
  rewrite save_invoice_cases. cbv zeta. fold k.
  destruct (bool_decide (k ∈ downloaded_invoices s2)) eqn:Hk2.
  - apply bool_decide_eq_true in Hk2.
    apply (IH s0' s2); [done| |done]. by apply Hnext.
  - apply bool_decide_eq_false in Hk2.
    assert (Hon2 : is_Some (faktury s2 !! filename)).
    { destruct Hdisk0 as [Hk0|Hdisk0].
      - destruct (Hskipped filename (list_elem_of_here _ _) Hxml Hk0) as [H|H];
          [contradiction|exact H].
      - apply Hfiles. by apply (keeps_files_body_loop names s0'). }
    destruct Hon2 as [old Hold]. rewrite Hold.
    destruct (IH s0' (set_downloaded_invoices ({[k]} ∪ downloaded_invoices s2) s2))
      as (seen' & Hrun2); [done| |done|].
    { cbn. apply Hnext; [apply union_subseteq_r|].
      apply elem_of_union_l. by apply elem_of_singleton. }
    exists seen'. exact Hrun2.
Qed.

End SecondPass.

(** Reading the metadata depends on the archive only. *)
Lemma read_metadata_pure (lib : Library) (zf : ZipFile) (s : Sys) :
  exists r, forall s', InvoiceFetcher.read_metadata lib zf s' = (r, s').
Proof.
  unfold InvoiceFetcher.read_metadata.
  destruct (bool_decide _); [|by eexists].
  destruct (zf_read zf "_metadata.json"); [|by eexists].
  destruct (json_load_metadata lib l); by eexists.
Qed.

(** The condition under which a second materialization is idle: every
    document of the archive whose identifier was already seen when the
    first materialization started is, when the second starts, on disk or
    has its identifier seen. *)
Lemma extract_invoices_twice (lib : Library) (zf : ZipFile) (s0 s2 : Sys) :
  skipped_documents_known lib zf s0 s2 ->
  keeps_files (InvoiceFetcher.extract_invoices lib zf s0).2 s2 ->
  new_invoices (InvoiceFetcher.extract_invoices lib zf s2).2 = new_invoices s2
  /\ faktury (InvoiceFetcher.extract_invoices lib zf s2).2 = faktury s2.
Proof.
  unfold skipped_documents_known, InvoiceFetcher.extract_invoices, bind.
  destruct (read_metadata_pure lib zf s0) as (r & Hr). rewrite !Hr.
  destruct r as [metadata|e]; [|done].
  intros Hskipped Hfiles.
  destruct (second_pass zf metadata (namelist zf) s0 s2) as (seen' & ->); try done.
  intros name Hn Hx Hin. apply (Hskipped metadata); done.
Qed.

(** X14: what the code does guarantee of a second materialization.
    Materializing the same archive a second time into the directory the
    first materialization left produces no new record and leaves the files
    on disk as they are, provided every document
    of the archive whose identifier was already seen when the first
    materialization started is, when the second starts, on disk under its
    own file name or has its identifier seen.  That is so when the second
    materialization follows the first in the same run, and when the first
    started from an empty seen-set, whatever the seen-set of the second.  A
    document whose own file name is already on disk is skipped: its
    identifier is seen afterwards, nothing is recorded as new and nothing is
    written, also when the seen-set was empty. *)
Theorem idempotent_extraction (lib : Library) (zf : ZipFile) :
  (forall s0 s2 : Sys,
      let s1 := (InvoiceFetcher.extract_invoices lib zf s0).2 in
      skipped_documents_known lib zf s0 s2 ->
      faktury s2 = faktury s1 ->
      let s3 := (InvoiceFetcher.extract_invoices lib zf s2).2 in
      new_invoices s3 = new_invoices s2 /\ faktury s3 = faktury s2)
  /\ (forall s0 : Sys,
      let s1 := (InvoiceFetcher.extract_invoices lib zf s0).2 in
      let s3 := (InvoiceFetcher.extract_invoices lib zf s1).2 in
      new_invoices s3 = new_invoices s1 /\ faktury s3 = faktury s1)
  /\ (forall s0 s2 : Sys,
      let s1 := (InvoiceFetcher.extract_invoices lib zf s0).2 in
      downloaded_invoices s0 = ∅ ->
      faktury s2 = faktury s1 ->
      let s3 := (InvoiceFetcher.extract_invoices lib zf s2).2 in
      new_invoices s3 = new_invoices s2 /\ faktury s3 = faktury s2)
  /\ (forall (filename : string) (metadata : option (option (list string)))
             (s : Sys),
      is_Some (faktury s !! filename) ->
      exists s',
        InvoiceFetcher._save_invoice zf filename metadata s = (Ok tt, s')
        /\ InvoiceFetcher.derive_ksef_number metadata filename
           ∈ downloaded_invoices s'
        /\ new_invoices s' = new_invoices s
        /\ faktury s' = faktury s).
Proof.
  split; [|split; [|split]].
  - intros s0 s2 s1 Hskipped Hdisk.
    apply (extract_invoices_twice lib zf s0 s2 Hskipped).
    intros name Hname. by rewrite Hdisk.
  - intros s0 s1. apply (extract_invoices_twice lib zf s0 s1).
    + intros metadata name _ _ _ Hin. left.
      by apply (keeps_seen_extract_invoices lib zf s0).
    + intros name Hname. exact Hname.
  - intros s0 s2 s1 Hempty Hdisk.
    apply (extract_invoices_twice lib zf s0 s2).
    + intros metadata name _ _ _ Hin. rewrite Hempty in Hin.
      by apply not_elem_of_empty in Hin.
    + intros name Hname. by rewrite Hdisk.
  - intros filename metadata s [old Hold]. rewrite save_invoice_cases. cbv zeta.
    destruct (bool_decide _) eqn:Hk.
    + apply bool_decide_eq_true in Hk. by exists s.
    + rewrite Hold. eexists. split; [done|]. cbn. split; [|done].
      apply elem_of_union_l. by apply elem_of_singleton.
Qed.

Lemma idempotent_extraction_witness :
  let s1 := (InvoiceFetcher.extract_invoices Fixture.lib Fixture.archive Fixture.fresh).2 in
  (* the first materialization wrote the invoice and recorded it *)
  new_invoices s1 = [{| ksefNumber := "1111-AAAA"; filename := "1111-AAAA.xml" |}]
  (* a fetcher constructed afterwards on the same directory, seen-set empty *)
  /\ (let s3 := (InvoiceFetcher.extract_invoices Fixture.lib Fixture.archive
                   (Fixture.restarted s1)).2 in
      new_invoices s3 = [] /\ faktury s3 = faktury s1)
  (* the file on disk, the seen-set empty: skipped and marked seen *)
  /\ (exists s',
        InvoiceFetcher._save_invoice Fixture.archive "1111-AAAA.xml"
          (Some (Some ["1111-AAAA"])) (Fixture.restarted s1) = (Ok tt, s')
        /\ "1111-AAAA" ∈ downloaded_invoices s'
        /\ new_invoices s' = []).
Proof.
  intros s1.
  destruct (idempotent_extraction Fixture.lib Fixture.archive)
    as (Htwice & _ & Hfresh & Hdoc).
  split; [vm_compute; reflexivity|]. split.
  - apply (Hfresh Fixture.fresh (Fixture.restarted s1)); reflexivity.
  - destruct (Hdoc "1111-AAAA.xml" (Some (Some ["1111-AAAA"])) (Fixture.restarted s1))
      as (s' & Hrun & Hseen & Hnew & _).
    + vm_compute. eexists. reflexivity.
    + exists s'. split; [exact Hrun|]. split; [exact Hseen|exact Hnew].
Defined.

(** C4: the code breaks the claim where two documents share an
    identifier.  [_save_invoice] derives the identifier of a document that
    the metadata does not list with [filename.replace('.xml', '')], which
    removes every occurrence of [.xml] and not only the extension: the
    documents [a.xml] and [a.xml.xml] both get the identifier [a], whereas
    the metadata path of the same function gives [a.xml.xml] the
    identifier [a.xml].  So, after [a.xml] has been materialized, an
    archive holding [a.xml.xml] is materialized without a record and
    without a file, its document skipped as seen; and materialized a second
    time on the same directory, by a fetcher constructed afterwards, it
    yields one new record and one new file, where the claim has none. *)
Theorem second_materialization_can_record :
  let s0 := (InvoiceFetcher.extract_invoices Fixture.lib Fixture.archive_a
               Fixture.fresh).2 in
  let s1 := (InvoiceFetcher.extract_invoices Fixture.lib Fixture.archive_a_twice s0).2 in
  let s3 := (InvoiceFetcher.extract_invoices Fixture.lib Fixture.archive_a_twice
               (Fixture.restarted s1)).2 in
  (InvoiceFetcher.derive_ksef_number None "a.xml" = "a"
   /\ InvoiceFetcher.derive_ksef_number None "a.xml.xml" = "a"
   /\ InvoiceFetcher.derive_ksef_number (Some (Some ["a.xml"])) "a.xml.xml" = "a.xml")
  /\ (new_invoices s1 = new_invoices s0 /\ faktury s1 = faktury s0
      /\ faktury s1 !! "a.xml.xml" = None)
  /\ (faktury (Fixture.restarted s1) = faktury s1
      /\ new_invoices s3 = [{| ksefNumber := "a"; filename := "a.xml.xml" |}]
      /\ faktury s3 !! "a.xml.xml" = Some [x3c; x62; x2f; x3e])
  /\ ~ materialization_idempotent.
Proof.
  intros s0 s1 s3.
  split; [vm_compute; repeat split|].
  split; [vm_compute; repeat split|].
  split; [vm_compute; repeat split|].
  intros Hclaim.
  destruct (Hclaim Fixture.lib Fixture.archive_a_twice s0 (Fixture.restarted s1)
              eq_refl) as [Hnew _].
  vm_compute in Hnew. discriminate Hnew.
Qed.

(** ** C1: when the state file is written *)

Lemma same_state_file_save_invoice (zf : ZipFile) (filename : string)
    (metadata : option (option (list string))) :
  respects same_state_file (InvoiceFetcher._save_invoice zf filename metadata).
Proof.
  intros s. rewrite save_invoice_cases. cbv zeta. unfold same_state_file.
  destruct (bool_decide _); [done|].
  destruct (faktury s !! filename); [done|].
  by destruct (zf_read zf filename).
Qed.

Section StateFile.
Context (lib : Library) (platform : Platform).

Let any_event : event -> Prop := fun _ => True.

Local Lemma same_state_file_trans (s1 s2 s3 : Sys) :
  same_state_file s1 s2 -> same_state_file s2 s3 -> same_state_file s1 s3.
Proof. unfold same_state_file. congruence. Qed.

Lemma same_state_file_authenticate (ksef_token context_nip : string) :
  respects same_state_file
    (KSeFClient.authenticate lib platform ksef_token context_nip).
Proof.
  apply (respects_authenticate same_state_file any_event
           (fun _ => eq_refl) same_state_file_trans
           (fun _ _ _ _ => eq_refl) (fun _ => I) (fun _ _ => eq_refl)).
Qed.

Lemma same_state_file_fetch_all (subject_types : list string) :
  respects same_state_file
    (for_each subject_types (InvoiceFetcher._fetch_for_subject_type lib platform)).
Proof.
  apply (respects_fetch_all same_state_file any_event
           (fun _ => eq_refl) same_state_file_trans
           (fun _ _ _ _ => eq_refl)
           (fun _ _ _ _ _ => I) (fun _ => I) (fun _ => I) (fun _ => I)
           (fun _ _ => eq_refl) same_state_file_save_invoice).
Qed.

End StateFile.

(** C1, as the code has it: the state file is written once, after all
    subject-roles have been processed.  A run that returns leaves in the
    state file the state the fetcher has in memory, with every advanced
    cursor; a run that raises, during authentication or while a
    subject-role is processed, leaves the state file as it was before the
    run. *)
Theorem state_file_written_at_end_of_run (lib : Library) (platform : Platform)
    (ksef_token context_nip : string) (s : Sys) :
  match InvoiceFetcher.fetch_invoices lib platform ksef_token context_nip s with
  | (Ok _, s') => state_file s' = Some (state s')
  | (Raise _, s') => state_file s' = state_file s
  end.
Proof.
  unfold InvoiceFetcher.fetch_invoices, bind.
  pose proof (same_state_file_authenticate lib platform ksef_token context_nip s) as Hauth.
  destruct (KSeFClient.authenticate lib platform ksef_token context_nip s)
    as [[ok|e] s1]; [|exact Hauth].
  pose proof (same_state_file_fetch_all lib platform InvoiceFetcher.SUBJECT_TYPES s1)
    as Hroles.
  destruct (for_each InvoiceFetcher.SUBJECT_TYPES
              (InvoiceFetcher._fetch_for_subject_type lib platform) s1)
    as [[[]|e] s2]; cbn in *.
  - reflexivity.
  - unfold same_state_file in *. congruence.
Qed.

(** C1, as stated, fails: on a platform where
    the export of Subject1 completes and the export request of Subject2 is
    refused, the cursor of Subject1 is advanced in memory and the state
    file is never written. *)
Lemma state_lost_when_later_role_fails : ~ persisted_after_each_role.
Proof.
  intros Hclaim.
  pose (run := KSeFClient.authenticate Fixture.lib (Fixture.run_platform 7)
                 "token" "1234567890" ;;;
               for_each ["Subject1"]
                 (InvoiceFetcher._fetch_for_subject_type Fixture.lib
                    (Fixture.run_platform 7))).
  pose (s1 := (run Fixture.fresh).2).
  pose (s2 := (InvoiceFetcher._fetch_for_subject_type Fixture.lib
                 (Fixture.run_platform 7) "Subject2" s1).2).
  specialize (Hclaim Fixture.lib (Fixture.run_platform 7) "token" "1234567890"
                ["Subject1"] ["Subject3"] "Subject2" Fixture.fresh s1 s2 HTTPError
                eq_refl).
  assert (H1 : run Fixture.fresh = (Ok tt, s1)) by (vm_compute; reflexivity).
  assert (H2 : InvoiceFetcher._fetch_for_subject_type Fixture.lib
                 (Fixture.run_platform 7) "Subject2" s1 = (Raise HTTPError, s2))
    by (vm_compute; reflexivity).
  specialize (Hclaim H1 H2 "Subject1").
  assert (Hin : "Subject1" ∈ ["Subject1"]) by (by left).
  specialize (Hclaim Hin). vm_compute in Hclaim. discriminate Hclaim.
Qed.

(** The same run, evaluated: it raises, with one invoice written and the
    cursor of Subject1 advanced in memory, and no state file. *)
Example failing_run_evaluated :
  let '(r, s') := InvoiceFetcher.fetch_invoices Fixture.lib (Fixture.run_platform 7)
                    "token" "1234567890" Fixture.fresh in
  r = Raise HTTPError
  /\ state s' !! "continuation_point_Subject1" = Some "2024-06-15T00:00:00Z"
  /\ new_invoices s' = [{| ksefNumber := "1111-AAAA"; filename := "1111-AAAA.xml" |}]
  /\ faktury s' !! "1111-AAAA.xml" = Some [x3c; x61; x2f; x3e]
  /\ state_file s' = None.
Proof. vm_compute. repeat split. Qed.

(** A run that completes, evaluated: the state file holds the three
    cursors. *)
Example complete_run_evaluated :
  let '(r, s') := InvoiceFetcher.fetch_invoices Fixture.lib (Fixture.run_platform 100)
                    "token" "1234567890" Fixture.fresh in
  (exists out, r = Ok out /\ InvoiceFetcher.count out = 1)
  /\ (state_file s' ≫= (fun file => file !! "continuation_point_Subject1"))
     = Some "2024-06-15T00:00:00Z"
  /\ (state_file s' ≫= (fun file => file !! "continuation_point_Subject3"))
     = Some "2024-06-15T00:00:00Z".
Proof. vm_compute. split; [by eexists|by split]. Qed.

(** ** C6 and C8: the start of [_fetch_for_subject_type] *)

Lemma bind_run {A B} (m : M A) (k : A -> M B) (s : Sys) :
  bind m k s
  = match m s with
    | (Ok a, s') => k a s'
    | (Raise e, s') => (Raise e, s')
    end.
Proof. reflexivity. Qed.

Lemma extends_trace_refl (s : Sys) : extends_trace s s.
Proof. exists []. by rewrite app_nil_r. Qed.

Lemma extends_trace_trans (s1 s2 s3 : Sys) :
  extends_trace s1 s2 -> extends_trace s2 s3 -> extends_trace s1 s3.
Proof.
  intros [evs1 H1] [evs2 H2]. exists (evs1 ++ evs2).
  by rewrite H2, H1, <- List.app_assoc.
Qed.

Lemma extends_trace_save_invoice (zf : ZipFile) (filename : string)
    (metadata : option (option (list string))) :
  respects extends_trace (InvoiceFetcher._save_invoice zf filename metadata).
Proof.
  intros s. rewrite save_invoice_cases. cbv zeta.
  assert (Hsame : forall s' : Sys, trace s' = trace s -> extends_trace s s').
  { intros s' Hs'. exists []. by rewrite app_nil_r. }
  destruct (bool_decide _); [by apply Hsame|].
  destruct (faktury s !! filename); [by apply Hsame|].
  destruct (zf_read zf filename); by apply Hsame.
Qed.

(** With a token, [export_invoices] draws the key and the IV and sends one
    request, whatever the reply. *)
Lemma export_invoices_request (lib : Library) (platform : Platform)
    (subject_type date_from : string) (s : Sys) :
  get_truthy (access_token s) = true ->
  exists r ekey iv,
    KSeFClient.export_invoices lib platform subject_type date_from None None None s
    = (r, advance 3 [POST_invoices_exports subject_type date_from None ekey iv] s).
Proof.
  intros Htok.
  assert (Hs : forall ev, interact [ev] (interact [] (interact [] s)) = advance 3 [ev] s).
  { intros ev.
    change (advance 1 [ev] (advance 1 [] (advance 1 [] s)) = advance 3 [ev] s).
    by rewrite !advance_advance. }
  unfold KSeFClient.export_invoices.
  rewrite bind_run. cbn [gets]. rewrite Htok. cbn [negb].
  rewrite bind_run. unfold KSeFClient.os_urandom at 1.
  rewrite bind_run. unfold KSeFClient.os_urandom at 1.
  rewrite bind_run. unfold http. cbn [get_truthy].
  destruct (export_reply platform _); do 3 eexists; cbn [ret];
    rewrite Hs; reflexivity.
Qed.

Section ExtendsTrace.
Context (lib : Library) (platform : Platform).

Let any_event : event -> Prop := fun _ => True.

Local Lemma extends_trace_advance (n : nat) (evs : list event) (s : Sys) :
  Forall any_event evs -> extends_trace s (advance n evs s).
Proof. intros _. by exists evs. Qed.

Local Lemma extends_trace_set_state (v : gmap string string) (s : Sys) :
  extends_trace s (set_state v s).
Proof. exists []. cbn. by rewrite app_nil_r. Qed.

Lemma extends_trace_wait_for_export (ref : string) :
  respects extends_trace (InvoiceFetcher._wait_for_export_completion platform ref).
Proof.
  apply (respects_wait_for_export_loop extends_trace any_event
           extends_trace_refl extends_trace_trans extends_trace_advance
           (fun _ => I) (fun _ => I)).
Qed.

Lemma extends_trace_process_package (package : Package) (key iv : list byte) :
  respects extends_trace
    (InvoiceFetcher._process_package lib platform package key iv).
Proof.
  apply (respects_process_package extends_trace any_event
           extends_trace_refl extends_trace_trans extends_trace_advance
           (fun _ => I) extends_trace_save_invoice).
Qed.

Lemma extends_trace_update_continuation_point (subject_type : string)
    (package : Package) :
  respects extends_trace
    (InvoiceFetcher._update_continuation_point subject_type package).
Proof.
  apply (respects_update_continuation_point extends_trace
           extends_trace_refl extends_trace_set_state).
Qed.

End ExtendsTrace.

Lemma isoformat_month_start (now : datetime) :
  isoformat {| year := year now; month := month now; day := 1;
               hour := 0; minute := 0; second := 0; microsecond := 0 |}
  = (zfill 4 (year now) ++ "-" ++ zfill 2 (month now) ++ "-01T00:00:00+00:00")%string.
Proof. reflexivity. Qed.

(** C6: when the state holds no cursor for a subject-role, the export
    request that [_fetch_for_subject_type] sends for it (the first thing it
    sends, on a client that holds a token) carries as [date_from] the ISO
    form of the first instant of the month of the current UTC time: day 1,
    00:00:00, no microseconds, offset +00:00. *)
Theorem default_cursor_is_start_of_month (lib : Library) (platform : Platform)
    (subject_type : string) (s : Sys) :
  state s !! InvoiceFetcher.state_key subject_type = None ->
  get_truthy (access_token s) = true ->
  let now := utc_now platform (tick s) in
  let first_instant :=
    {| year := year now; month := month now; day := 1;
       hour := 0; minute := 0; second := 0; microsecond := 0 |} in
  (exists ekey iv evs,
      trace (InvoiceFetcher._fetch_for_subject_type lib platform subject_type s).2
      = trace s ++ POST_invoices_exports subject_type (isoformat first_instant)
                     None ekey iv :: evs)
  /\ isoformat first_instant
     = (zfill 4 (year now) ++ "-" ++ zfill 2 (month now) ++ "-01T00:00:00+00:00")%string.
Proof.
  intros Hnone Htok now first_instant. split; [|apply isoformat_month_start].
  unfold InvoiceFetcher._fetch_for_subject_type.
  rewrite bind_run. cbn [gets]. rewrite Hnone. cbn [get_truthy negb].
  rewrite bind_run. rewrite bind_run.
  unfold InvoiceFetcher.datetime_now_utc at 1. cbn [ret].
  fold now. change (replace_to_month_start now) with first_instant.
  rewrite bind_run.
  destruct (export_invoices_request lib platform subject_type
              (isoformat first_instant) (interact [] s) Htok)
    as (r & ekey & iv & ->).
  exists ekey, iv.
  assert (Hsent : trace (advance 3 [POST_invoices_exports subject_type
                                      (isoformat first_instant) None ekey iv]
                           (interact [] s))
                  = trace s ++ [POST_invoices_exports subject_type
                                  (isoformat first_instant) None ekey iv]).
  { cbn. by rewrite app_nil_r. }
  destruct r as [resp|e]; cbv beta zeta.
  - match goal with
    | |- context [(bind ?m ?k ?s1).2] =>
        assert (Hrest : extends_trace s1 (bind m k s1).2)
    end.
    { apply (respects_bind extends_trace extends_trace_trans).
      - apply extends_trace_wait_for_export.
      - intros status. destruct (package status) as [package|].
        + apply (respects_bind extends_trace extends_trace_trans).
          * apply extends_trace_process_package.
          * intros _. apply extends_trace_update_continuation_point.
        + intros s'. apply extends_trace_refl. }
    destruct Hrest as [evs Hevs]. exists evs.
    rewrite Hevs, Hsent. by rewrite <- List.app_assoc.
  - exists []. exact Hsent.
Qed.

Lemma default_cursor_is_start_of_month_witness :
  exists ekey iv evs,
    trace (InvoiceFetcher._fetch_for_subject_type Fixture.lib
             (Fixture.run_platform 100) "Subject1" (Fixture.sys_at 4)).2
    = POST_invoices_exports "Subject1" "2024-06-01T00:00:00+00:00" None ekey iv :: evs.
Proof.
  exact (proj1 (default_cursor_is_start_of_month Fixture.lib
                  (Fixture.run_platform 100) "Subject1" (Fixture.sys_at 4)
                  eq_refl eq_refl)).
Defined.

(** ** C8: an export that completes without a package *)

Lemma only_talked_refl (s : Sys) : only_talked s s.
Proof.
  repeat (split; [reflexivity|]). exists []. split; [by rewrite app_nil_r|constructor].
Qed.

Lemma only_talked_trans (s1 s2 s3 : Sys) :
  only_talked s1 s2 -> only_talked s2 s3 -> only_talked s1 s3.
Proof.
  intros (Ha & Hb & Hc & Hd & He & evs1 & Ht1 & Hf1)
         (Ha' & Hb' & Hc' & Hd' & He' & evs2 & Ht2 & Hf2).
  repeat (split; [congruence|]). exists (evs1 ++ evs2). split.
  - by rewrite Ht2, Ht1, <- List.app_assoc.
  - by apply Forall_app.
Qed.

Lemma only_talked_advance (n : nat) (evs : list event) (s : Sys) :
  Forall (fun e => ~ is_GET_part e) evs -> only_talked s (advance n evs s).
Proof.
  intros Hevs. repeat (split; [reflexivity|]). by exists evs.
Qed.

Lemma only_talked_start_point (platform : Platform) (subject_type : string) :
  respects only_talked (start_point platform subject_type).
Proof.
  unfold start_point.
  apply (respects_bind only_talked only_talked_trans).
  { intros s. apply only_talked_refl. }
  intros st. destruct (negb _).
  - apply (respects_bind only_talked only_talked_trans).
    + intros s. apply (only_talked_advance 1 []). constructor.
    + intros now s. apply only_talked_refl.
  - intros s. apply only_talked_refl.
Qed.

Lemma only_talked_export_invoices (lib : Library) (platform : Platform)
    (subject_type date_from : string) :
  respects only_talked
    (KSeFClient.export_invoices lib platform subject_type date_from None None None).
Proof.
  apply (respects_export_invoices only_talked (fun e => ~ is_GET_part e)
           only_talked_refl only_talked_trans only_talked_advance).
  intros ? ? ? ? ? H. exact H.
Qed.

Lemma only_talked_wait_for_export (platform : Platform) (ref : string) :
  respects only_talked (InvoiceFetcher._wait_for_export_completion platform ref).
Proof.
  apply (respects_wait_for_export_loop only_talked (fun e => ~ is_GET_part e)
           only_talked_refl only_talked_trans only_talked_advance).
  - intros ? H. exact H.
  - intros ? H. exact H.
Qed.

(** The export loop returns only on the code 200. *)
Lemma wait_for_export_loop_returns_200 (platform : Platform) (ref : string)
    (attempts : nat) (s s' : Sys) (status : StatusResponse) :
  InvoiceFetcher.wait_for_export_loop platform ref attempts s = (Ok status, s') ->
  KSeFClient.status_code status = Some 200%Z.
Proof.
  revert s. induction attempts as [|attempts IH]; intros s;
    cbn [InvoiceFetcher.wait_for_export_loop]; [discriminate|].
  rewrite bind_run.
  destruct (KSeFClient.get_export_status platform ref s) as [[data|e] s1];
    [|discriminate].
  destruct (KSeFClient.status_code data) as [c|] eqn:Hc; [|discriminate].
  destruct (Z.eqb_spec c 200) as [->|Hne].
  - intros [= <- <-]. exact Hc.
  - destruct (c >=? 400)%Z; [discriminate|].
    rewrite bind_run. cbn [sleep modify]. apply IH.
Qed.

(** A package object without any of the keys the code reads makes
    [_process_package] and [_update_continuation_point] idle, as skipping
    them would. *)
Lemma empty_package_is_idle (lib : Library) (platform : Platform)
    (subject_type : string) (key iv : list byte) (s : Sys) :
  let empty := {| parts := None; isTruncated := None;
                  permanentStorageHwmDate := None;
                  lastPermanentStorageDate := None |} in
  (InvoiceFetcher._process_package lib platform empty key iv ;;;
   InvoiceFetcher._update_continuation_point subject_type empty) s = (Ok tt, s).
Proof. reflexivity. Qed.

(** C8: when the export of a subject-role has been requested and the poll
    has returned (so with the code 200) a status without a package,
    [_fetch_for_subject_type] returns at that point: the state of the
    fetcher, with the continuation point of the subject-role, and the
    directory are as before the call, nothing has been recorded, and no
    part has been requested. *)
Theorem no_package_no_effect (lib : Library) (platform : Platform)
    (subject_type date_from : string) (s s0 s1 s2 : Sys)
    (export_response : ExportResponse) (status : StatusResponse) :
  start_point platform subject_type s = (Ok date_from, s0) ->
  KSeFClient.export_invoices lib platform subject_type date_from None None None s0
  = (Ok export_response, s1) ->
  InvoiceFetcher._wait_for_export_completion platform
    (referenceNumber export_response) s1 = (Ok status, s2) ->
  package status = None ->
  KSeFClient.status_code status = Some 200%Z
  /\ InvoiceFetcher._fetch_for_subject_type lib platform subject_type s = (Ok tt, s2)
  /\ state s2 = state s
  /\ faktury s2 = faktury s
  /\ new_invoices s2 = new_invoices s
  /\ exists evs, trace s2 = trace s ++ evs /\ forall url, GET_part url ∉ evs.
Proof.
  intros Hstart Hexport Hwait Hpackage.
  split; [exact (wait_for_export_loop_returns_200 _ _ _ _ _ _ Hwait)|].
  split.
  { unfold InvoiceFetcher._fetch_for_subject_type. unfold start_point in Hstart.
    rewrite bind_run in Hstart. rewrite bind_run. cbn [gets] in *.
    rewrite bind_run. rewrite Hstart.
    rewrite bind_run. rewrite Hexport. cbv beta zeta.
    rewrite bind_run. rewrite Hwait. by rewrite Hpackage. }
  assert (Htalk : only_talked s s2).
  { apply (only_talked_trans s s0).
    { pose proof (only_talked_start_point platform subject_type s) as H.
      by rewrite Hstart in H. }
    apply (only_talked_trans s0 s1).
    { pose proof (only_talked_export_invoices lib platform subject_type date_from s0) as H.
      by rewrite Hexport in H. }
    pose proof (only_talked_wait_for_export platform
                  (referenceNumber export_response) s1) as H.
    by rewrite Hwait in H. }
  destruct Htalk as (Hstate & Hdisk & _ & Hnew & _ & evs & Htrace & Hparts).
  split; [exact Hstate|]. split; [exact Hdisk|]. split; [exact Hnew|].
  exists evs. split; [exact Htrace|].
  intros url Hin. apply (proj1 (Forall_forall _ _) Hparts _ Hin). exact I.
Qed.

Lemma no_package_no_effect_witness :
  let p := Fixture.no_package_platform in
  let s := Fixture.sys_at 4 in
  let s' := (InvoiceFetcher._fetch_for_subject_type Fixture.lib p "Subject1" s).2 in
  InvoiceFetcher._fetch_for_subject_type Fixture.lib p "Subject1" s = (Ok tt, s')
  /\ state s' = state s /\ faktury s' = faktury s /\ new_invoices s' = new_invoices s
  /\ exists evs, trace s' = trace s ++ evs /\ forall url, GET_part url ∉ evs.
Proof.
  intros p s s'.
  pose (date_from := "2024-06-01T00:00:00+00:00").
  pose (s0 := (start_point p "Subject1" s).2).
  pose (r1 := KSeFClient.export_invoices Fixture.lib p "Subject1" date_from
                None None None s0).
  pose (resp := {| referenceNumber := "export-ref";
                   _encryption_key := replicate 32 x00;
                   _encryption_iv := replicate 16 x00 |}).
  pose (status := Fixture.status_with 200 None).
  assert (H0 : start_point p "Subject1" s = (Ok date_from, s0))
    by (vm_compute; reflexivity).
  assert (H1 : KSeFClient.export_invoices Fixture.lib p "Subject1" date_from
                 None None None s0 = (Ok resp, r1.2))
    by (vm_compute; reflexivity).
  assert (H2 : InvoiceFetcher._wait_for_export_completion p (referenceNumber resp)
                 r1.2 = (Ok status, s'))
    by (vm_compute; reflexivity).
  destruct (no_package_no_effect Fixture.lib p "Subject1" date_from s s0 r1.2 s'
              resp status H0 H1 H2 eq_refl) as (_ & Hrun & Hrest).
  split; [exact Hrun|exact Hrest].
Defined.

(** * Further properties of the code *)

(** ** client.py: authentication *)

Lemma only_interacted_refl (s : Sys) : only_interacted s s.
Proof. exists 0, []. by rewrite advance_0_nil. Qed.

Lemma only_interacted_trans (s1 s2 s3 : Sys) :
  only_interacted s1 s2 -> only_interacted s2 s3 -> only_interacted s1 s3.
Proof.
  intros (n1 & evs1 & ->) (n2 & evs2 & ->).
  exists (n2 + n1), (evs1 ++ evs2). apply advance_advance.
Qed.

Lemma only_interacted_advance (n : nat) (evs : list event) (s : Sys) :
  Forall (fun _ : event => True) evs -> only_interacted s (advance n evs s).
Proof. intros _. by exists n, evs. Qed.

Lemma only_interacted_http {A} (ev : event) (answer : nat -> reply A) :
  respects only_interacted (http ev answer).
Proof.
  apply (respects_http only_interacted (fun _ => True) only_interacted_advance).
  exact I.
Qed.

Lemma only_interacted_wait_for_auth (platform : Platform) (ref tok : string) :
  respects only_interacted (KSeFClient._wait_for_auth_completion platform ref tok).
Proof.
  apply (respects_wait_for_auth_loop only_interacted (fun _ => True)
           only_interacted_refl only_interacted_trans only_interacted_advance
           (fun _ => I)).
Qed.

(** X1: [authenticate] sets the access token only when every step has
    succeeded.  When it raises, at whatever step, the client and the
    fetcher are as before, the access token included; only the history of
    the interactions has grown.  When it returns, it returns [True] and the
    one change beside the history is the access token, now set. *)
Theorem authenticate_sets_token_on_success_only (lib : Library)
    (platform : Platform) (ksef_token context_nip : string) (s : Sys) :
  match KSeFClient.authenticate lib platform ksef_token context_nip s with
  | (Raise _, s') => exists n evs, s' = advance n evs s
  | (Ok b, s') =>
      b = true
      /\ exists n evs token, s' = set_access_token (Some token) (advance n evs s)
  end.
Proof.
  unfold KSeFClient.authenticate, KSeFClient._get_challenge,
    KSeFClient._submit_auth, KSeFClient._redeem_token.
  rewrite bind_run.
  pose proof (only_interacted_http POST_auth_challenge (challenge_reply platform) s)
    as H1.
  destruct (http POST_auth_challenge (challenge_reply platform) s)
    as [[cd|e] s1]; [|exact H1]. cbv zeta.
  rewrite bind_run.
  match goal with
  | |- context [http ?ev ?ans s1] =>
      pose proof (only_interacted_http ev ans s1) as H2;
      destruct (http ev ans s1) as [[ar|e] s2]
  end; [|exact (only_interacted_trans _ _ _ H1 H2)].
  rewrite bind_run.
  pose proof (only_interacted_wait_for_auth platform (auth_referenceNumber ar)
                (authenticationToken ar) s2) as H3.
  destruct (KSeFClient._wait_for_auth_completion platform (auth_referenceNumber ar)
              (authenticationToken ar) s2) as [[[]|e] s3];
    [|exact (only_interacted_trans _ _ _ H1 (only_interacted_trans _ _ _ H2 H3))].
  rewrite bind_run. rewrite bind_run.
  match goal with
  | |- context [http ?ev ?ans s3] =>
      pose proof (only_interacted_http ev ans s3) as H4;
      destruct (http ev ans s3) as [[token|e] s4]
  end.
  - cbn [snd] in *. cbn. split; [reflexivity|].
    destruct (only_interacted_trans _ _ _ H1
                (only_interacted_trans _ _ _ H2
                   (only_interacted_trans _ _ _ H3 H4))) as (n & evs & ->).
    by exists n, evs, token.
  - exact (only_interacted_trans _ _ _ H1
             (only_interacted_trans _ _ _ H2
                (only_interacted_trans _ _ _ H3 H4))).
Qed.

Lemma http_reply {A} (ev : event) (answer : nat -> reply A) (s : Sys) (a : A) :
  answer (tick s) = Reply a -> http ev answer s = (Ok a, advance 1 [ev] s).
Proof. intros H. unfold http. by rewrite H. Qed.

Lemma http_failed {A} (ev : event) (answer : nat -> reply A) (s : Sys) :
  answer (tick s) = Failed -> http ev answer s = (Raise HTTPError, advance 1 [ev] s).
Proof. intros H. unfold http. by rewrite H. Qed.

(** X2: the handshake, step by step.  When the platform answers the
    challenge, accepts the submission, reports N codes in progress (N < 10)
    and then 200, and redeems the token, [authenticate] returns [True]
    after exactly these requests, in this order: the challenge; the
    submission, carrying the challenge, the NIP and the encryption of
    [token|timestampMs]; N+1 status calls with a sleep of 2 seconds between
    them, made with the reference number and the authentication token of
    the submission; the redemption, with that same authentication token.
    The access token is the redeemed one. *)
Theorem authenticate_handshake (lib : Library) (platform : Platform)
    (ksef_token context_nip : string) (s : Sys)
    (cd : Challenge) (ar : AuthResponse) (codes : list Z) (token : string) :
  let n := length codes in
  let status_call :=
    GET_auth_status (auth_referenceNumber ar) (authenticationToken ar) in
  challenge_reply platform (tick s) = Reply cd ->
  auth_reply platform (tick s + 1) = Reply ar ->
  Forall in_progress codes -> n < 10 ->
  answers_codes (auth_status_reply platform) (tick s + 2) (codes ++ [200%Z]) ->
  redeem_reply platform (tick s + 3 + n) = Reply token ->
  KSeFClient.authenticate lib platform ksef_token context_nip s
  = (Ok true,
     set_access_token (Some token)
       (advance (n + 4)
          ([POST_auth_challenge;
            POST_auth_ksef_token (challenge cd) context_nip
              (Crypto.encrypt_token (oaep_b64_token_key lib) ksef_token
                 (timestampMs cd))]
           ++ rounds n status_call 2
           ++ [status_call; POST_auth_token_redeem (authenticationToken ar)])
          s)).
Proof.
  intros n status_call Hch Hauth Hcodes Hn Hstatus Hredeem.
  unfold KSeFClient.authenticate, KSeFClient._get_challenge,
    KSeFClient._submit_auth, KSeFClient._redeem_token,
    KSeFClient._wait_for_auth_completion, KSeFClient.auth_max_attempts.
  rewrite bind_run, (http_reply _ _ s cd Hch). cbv zeta.
  rewrite bind_run, (http_reply _ _ _ ar).
  2:{ cbn [tick advance]. by rewrite Nat.add_comm in Hauth. }
  rewrite advance_advance.
  rewrite bind_run.
  replace 10 with (length codes + S (9 - length codes)) by (subst n; lia).
  rewrite (wait_for_auth_loop_success platform _ _ codes); [|done|].
  2:{ cbn [tick advance]. by replace (1 + 1 + tick s) with (tick s + 2) by lia. }
  rewrite advance_advance.
  rewrite bind_run, bind_run, (http_reply _ _ _ token).
  2:{ cbn [tick advance]. fold n.
      by replace (S n + (1 + 1) + tick s) with (tick s + 3 + n) by lia. }
  rewrite advance_advance. cbn [modify ret].
  f_equal. f_equal. f_equal; [lia|].
  fold n. fold status_call. by rewrite <- !List.app_assoc.
Qed.

Lemma authenticate_handshake_witness :
  KSeFClient.authenticate Fixture.lib (Fixture.run_platform 100) "token" "1234567890"
    Fixture.fresh
  = (Ok true,
     set_access_token (Some "access-token")
       (advance 4
          [POST_auth_challenge;
           POST_auth_ksef_token "challenge-1" "1234567890" "encrypted-token";
           GET_auth_status "auth-ref" "auth-token";
           POST_auth_token_redeem "auth-token"]
          Fixture.fresh)).
Proof.
  refine (authenticate_handshake Fixture.lib (Fixture.run_platform 100)
            "token" "1234567890" Fixture.fresh
            {| challenge := "challenge-1"; timestampMs := 1718631912000 |}
            {| auth_referenceNumber := "auth-ref"; authenticationToken := "auth-token" |}
            [] "access-token" eq_refl eq_refl _ _ _ eq_refl).
  - constructor.
  - cbn. lia.
  - intros i c. destruct i as [|i]; cbn; intros [= <-].
    eexists. split; reflexivity.
Defined.

(** ** client.py: requests that need the access token *)

(** X3: without an access token (none, or an empty one) neither
    [export_invoices] nor [get_export_status] sends anything or draws any
    randomness: each raises its own error and leaves the system as it was;
    and so the export loop raises at its first attempt. *)
Theorem no_request_without_token (lib : Library) (platform : Platform)
    (subject_type date_from reference_number : string) (date_to : option string)
    (key iv : option (list byte)) (s : Sys) :
  get_truthy (access_token s) = false ->
  KSeFClient.export_invoices lib platform subject_type date_from date_to key iv s
  = (Raise (Exception "Brak tokena dostępowego - najpierw uwierzytelnij się"), s)
  /\ KSeFClient.get_export_status platform reference_number s
     = (Raise (Exception "Brak tokena dostępowego"), s)
  /\ InvoiceFetcher._wait_for_export_completion platform reference_number s
     = (Raise (Exception "Brak tokena dostępowego"), s).
Proof.
  intros Htok.
  assert (Hstatus : KSeFClient.get_export_status platform reference_number s
                    = (Raise (Exception "Brak tokena dostępowego"), s)).
  { unfold KSeFClient.get_export_status. rewrite bind_run. cbn [gets].
    by rewrite Htok. }
  split; [|split; [exact Hstatus|]].
  - unfold KSeFClient.export_invoices. rewrite bind_run. cbn [gets].
    by rewrite Htok.
  - unfold InvoiceFetcher._wait_for_export_completion,
      InvoiceFetcher.export_max_attempts.
    cbn [InvoiceFetcher.wait_for_export_loop].
    rewrite bind_run. by rewrite Hstatus.
Qed.

Lemma no_request_without_token_witness :
  KSeFClient.export_invoices Fixture.lib (Fixture.run_platform 100)
    "Subject1" "2024-06-01T00:00:00+00:00" None None None Fixture.fresh
  = (Raise (Exception "Brak tokena dostępowego - najpierw uwierzytelnij się"),
     Fixture.fresh)
  /\ trace Fixture.fresh = [].
Proof.
  split; [|reflexivity].
  exact (proj1 (no_request_without_token Fixture.lib (Fixture.run_platform 100)
                  "Subject1" "2024-06-01T00:00:00+00:00" "" None None None
                  Fixture.fresh eq_refl)).
Defined.



(** ** crypto.py: [decrypt_aes] at its edges *)

Lemma length_cbc_decrypt_blocks (D : list byte -> list byte -> list byte)
    (key prev : list byte) (blocks : list (list byte)) :
  (forall b, length b = Crypto.block_size -> length (D key b) = Crypto.block_size) ->
  length prev = Crypto.block_size ->
  Forall (fun b => length b = Crypto.block_size) blocks ->
  length (Crypto.cbc_decrypt_blocks D key prev blocks)
  = length blocks * Crypto.block_size.
Proof.
  intros HD Hprev Hall. revert prev Hprev.
  induction Hall as [|b blocks Hb _ IH]; intros prev Hprev; [done|].
  cbn [Crypto.cbc_decrypt_blocks]. rewrite length_app, length_xor_bytes.
  rewrite HD, Hprev, IH by done. cbn. lia.
Qed.

(** X5: what [decrypt_aes] does with a valid key and IV, the block
    decryption keeping the block length.  On empty data it raises
    [IndexError] (there is no last byte to read); on data that is not a
    whole number of blocks, [ValueError]; on any other data it returns, and
    what it returns is strictly shorter than the data: at least one byte is
    always taken for padding. *)
Theorem decrypt_aes_edges (D : list byte -> list byte -> list byte)
    (key iv data : list byte) :
  (forall b, length b = 16 -> length (D key b) = 16) ->
  Crypto.valid_key key = true -> length iv = 16 ->
  (data = [] -> Crypto.decrypt_aes D data key iv = Raise IndexError)
  /\ (length data mod 16 <> 0 -> Crypto.decrypt_aes D data key iv = Raise ValueError)
  /\ (data <> [] -> length data mod 16 = 0 ->
      exists out, Crypto.decrypt_aes D data key iv = Ok out
                  /\ length out < length data).
Proof.
  intros HD Hkey Hiv.
  unfold Crypto.decrypt_aes, Crypto.cbc_decrypt, Crypto.valid_iv, Crypto.block_size.
  rewrite Hkey, Hiv. cbn [negb Nat.eqb].
  split; [|split].
  - intros ->. reflexivity.
  - intros Hmod. apply Nat.eqb_neq in Hmod. by rewrite Hmod.
  - intros Hne Hmod. rewrite Hmod. cbn [Nat.eqb negb].
    destruct (whole_blocks 16 data) as (bs & -> & Hall); [lia|done|].
    rewrite chunks_concat by (done || lia).
    set (decrypted := Crypto.cbc_decrypt_blocks D key iv bs).
    assert (Hlen : length decrypted = length (concat bs)).
    { unfold decrypted. rewrite (length_cbc_decrypt_blocks D key iv bs HD Hiv Hall).
      clear -Hall. induction Hall as [|b bs Hb _ IH]; [done|].
      cbn. rewrite length_app, Hb, <- IH. unfold Crypto.block_size. lia. }
    assert (Hpos : 0 < length decrypted).
    { rewrite Hlen. destruct (concat bs); [done|cbn; lia]. }
    unfold py_last. destruct (last decrypted) as [p|] eqn:Hlast.
    + eexists. split; [reflexivity|]. rewrite <- Hlen.
      unfold py_slice_to_neg. destruct (Byte.to_nat p) as [|p']; [done|].
      rewrite length_take. lia.
    + apply last_None in Hlast. rewrite Hlast in Hpos. cbn in Hpos. lia.
Qed.

Lemma decrypt_aes_edges_witness :
  Crypto.decrypt_aes Fixture.xor_cipher [] Fixture.key32 Fixture.iv16
  = Raise IndexError
  /\ Crypto.decrypt_aes Fixture.xor_cipher [x00; x01; x02] Fixture.key32 Fixture.iv16
     = Raise ValueError
  /\ exists out,
       Crypto.decrypt_aes Fixture.xor_cipher (replicate 16 x07) Fixture.key32
         Fixture.iv16 = Ok out
       /\ length out < 16.
Proof.
  destruct (decrypt_aes_edges Fixture.xor_cipher Fixture.key32 Fixture.iv16 [])
    as (Hempty & _ & _);
    [exact (xor_cipher_length Fixture.key32 eq_refl)|reflexivity|reflexivity|].
  destruct (decrypt_aes_edges Fixture.xor_cipher Fixture.key32 Fixture.iv16
              [x00; x01; x02]) as (_ & Hpartial & _);
    [exact (xor_cipher_length Fixture.key32 eq_refl)|reflexivity|reflexivity|].
  destruct (decrypt_aes_edges Fixture.xor_cipher Fixture.key32 Fixture.iv16
              (replicate 16 x07)) as (_ & _ & Hwhole);
    [exact (xor_cipher_length Fixture.key32 eq_refl)|reflexivity|reflexivity|].
  split; [exact (Hempty eq_refl)|]. split.
  - apply Hpartial. cbn. lia.
  - apply Hwhole; [discriminate|reflexivity].
Defined.

(** ** fetch_invoices.py: downloading the parts *)




(** X7: a part that cannot be fetched aborts the package.  When the parts
    before it are served and its own request fails, [_process_package]
    raises the transport error at once: no later part is requested, nothing
    is decrypted or written, and the system differs only by the requests
    made so far. *)
Theorem failed_part_aborts_package (lib : Library) (platform : Platform)
    (package : Package) (key iv : list byte)
    (before after : list string) (url : string)
    (datas : list (list byte)) (s : Sys) :
  parts package = Some (before ++ url :: after) ->
  length datas = length before ->
  (forall i u d, before !! i = Some u -> datas !! i = Some d ->
     part_reply platform (tick s + i) u = Reply d) ->
  part_reply platform (tick s + length before) url = Failed ->
  InvoiceFetcher._process_package lib platform package key iv s
  = (Raise HTTPError,
     advance (S (length before)) (GET_part <$> (before ++ [url])) s).
Proof.
  intros Hparts Hlen Hserved Hfailed.
  unfold InvoiceFetcher._process_package. rewrite Hparts. cbn [default].
  assert (Hdl : InvoiceFetcher.download_parts platform (before ++ url :: after) s
                = (Raise HTTPError,
                   advance (S (length before)) (GET_part <$> (before ++ [url])) s)).
  { clear Hparts. revert datas s Hlen Hserved Hfailed.
    induction before as [|u before IH]; intros datas s Hlen Hserved Hfailed.
    - cbn [app InvoiceFetcher.download_parts]. unfold KSeFClient.download_package_part.
      rewrite bind_run, (http_failed _ _ s); [done|].
      by rewrite Nat.add_0_r in Hfailed.
    - destruct datas as [|d datas]; [done|].
      cbn [app InvoiceFetcher.download_parts]. unfold KSeFClient.download_package_part.
      rewrite bind_run, (http_reply _ _ s d).
      2:{ specialize (Hserved 0 u d eq_refl eq_refl).
          by rewrite Nat.add_0_r in Hserved. }
      rewrite bind_run, (IH datas).
      + rewrite advance_advance. f_equal. cbn [length]. f_equal. lia.
      + cbn in Hlen. lia.
      + intros i u' d' Hu Hd. cbn [tick advance].
        specialize (Hserved (S i) u' d' Hu Hd).
        by replace (1 + tick s + i) with (tick s + S i) by lia.
      + cbn [tick advance length] in *.
        by replace (1 + tick s + length before) with (tick s + S (length before))
          by lia. }
  destruct (before ++ url :: after) as [|p rest] eqn:Heq.
  { by destruct before. }
  unfold id. cbv iota beta. rewrite bind_run. by rewrite Hdl.
Qed.

Lemma failed_part_aborts_package_witness :
  InvoiceFetcher._process_package Fixture.lib Fixture.polling_platform
    Fixture.package_one_part (replicate 32 x00) (replicate 16 x00) (Fixture.sys_at 9)
  = (Raise HTTPError,
     advance 1 [GET_part "https://storage/part-1"] (Fixture.sys_at 9)).
Proof.
  refine (failed_part_aborts_package Fixture.lib Fixture.polling_platform
            Fixture.package_one_part (replicate 32 x00) (replicate 16 x00)
            [] [] "https://storage/part-1" [] (Fixture.sys_at 9)
            eq_refl eq_refl _ eq_refl).
  intros i u d Hu. discriminate Hu.
Defined.

(** ** fetch_invoices.py: one subject-role, step by step *)

(** [_fetch_for_subject_type] as the sequence of its steps, each of which
    may raise. *)
Lemma fetch_for_subject_type_steps (lib : Library) (platform : Platform)
    (subject_type : string) (s : Sys) :
  InvoiceFetcher._fetch_for_subject_type lib platform subject_type s
  = match start_point platform subject_type s with
    | (Raise e, s0) => (Raise e, s0)
    | (Ok date_from, s0) =>
        match KSeFClient.export_invoices lib platform subject_type date_from
                None None None s0 with
        | (Raise e, s1) => (Raise e, s1)
        | (Ok response, s1) =>
            match InvoiceFetcher._wait_for_export_completion platform
                    (referenceNumber response) s1 with
            | (Raise e, s2) => (Raise e, s2)
            | (Ok status, s2) =>
                match package status with
                | None => (Ok tt, s2)
                | Some package =>
                    match InvoiceFetcher._process_package lib platform package
                            (_encryption_key response) (_encryption_iv response)
                            s2 with
                    | (Raise e, s3) => (Raise e, s3)
                    | (Ok _, s3) =>
                        InvoiceFetcher._update_continuation_point subject_type
                          package s3
                    end
                end
            end
        end
    end.
Proof.
  unfold InvoiceFetcher._fetch_for_subject_type, start_point, bind, gets, ret.
  destruct (negb (get_truthy (state s !! InvoiceFetcher.state_key subject_type)));
    [destruct (InvoiceFetcher.datetime_now_utc platform s) as [[now|e] s0];
       [|reflexivity]|].
  all: destruct (KSeFClient.export_invoices _ _ _ _ _ _ _ _) as [[response|e] s1];
    [|reflexivity].
  all: destruct (InvoiceFetcher._wait_for_export_completion _ _ s1)
    as [[status|e] s2]; [|reflexivity].
  all: destruct (package status); reflexivity.
Qed.

(** [_update_continuation_point] never raises, and changes at most the
    cursor of its subject-role. *)
Lemma update_continuation_point_cases (subject_type : string) (package : Package)
    (s : Sys) :
  InvoiceFetcher._update_continuation_point subject_type package s = (Ok tt, s)
  \/ exists d,
       InvoiceFetcher._update_continuation_point subject_type package s
       = (Ok tt, set_state (<[InvoiceFetcher.state_key subject_type := d]> (state s)) s).
Proof.
  unfold InvoiceFetcher._update_continuation_point.
  destruct (default false (isTruncated package)).
  - destruct (get_truthy (lastPermanentStorageDate package)); [right|by left].
    by eexists.
  - destruct (get_truthy (permanentStorageHwmDate package)); [right|by left].
    by eexists.
Qed.

Lemma same_cursors_save_invoice (zf : ZipFile) (filename : string)
    (metadata : option (option (list string))) :
  respects same_cursors (InvoiceFetcher._save_invoice zf filename metadata).
Proof.
  intros s. rewrite save_invoice_cases. cbv zeta. unfold same_cursors.
  destruct (bool_decide _); [done|].
  destruct (faktury s !! filename); [done|].
  by destruct (zf_read zf filename).
Qed.

Lemma same_cursors_process_package (lib : Library) (platform : Platform)
    (package : Package) (key iv : list byte) :
  respects same_cursors (InvoiceFetcher._process_package lib platform package key iv).
Proof.
  apply (respects_process_package same_cursors (fun _ => True)).
  - intros s. reflexivity.
  - intros s1 s2 s3. unfold same_cursors. congruence.
  - intros n evs s _. reflexivity.
  - intros e. exact I.
  - apply same_cursors_save_invoice.
Qed.

(** Up to the end of the package, the cursors are untouched. *)
Lemma same_cursors_before_update (lib : Library) (platform : Platform)
    (subject_type : string) (s : Sys) :
  (forall date_from s0,
      start_point platform subject_type s = (Ok date_from, s0) -> state s0 = state s)
  /\ (forall date_from s0 r s1,
      KSeFClient.export_invoices lib platform subject_type date_from None None None s0
      = (r, s1) -> state s1 = state s0)
  /\ (forall ref s1 r s2,
      InvoiceFetcher._wait_for_export_completion platform ref s1 = (r, s2) ->
      state s2 = state s1).
Proof.
  split; [|split].
  - intros date_from s0 H.
    pose proof (only_talked_start_point platform subject_type s) as Ht.
    rewrite H in Ht. exact (proj1 Ht).
  - intros date_from s0 r s1 H.
    pose proof (only_talked_export_invoices lib platform subject_type date_from s0) as Ht.
    rewrite H in Ht. exact (proj1 Ht).
  - intros ref s1 r s2 H.
    pose proof (only_talked_wait_for_export platform ref s1) as Ht.
    rewrite H in Ht. exact (proj1 Ht).
Qed.

(** X8: the cursor moves last.  Whatever happens while a subject-role is
    processed, the cursors of the other subject-roles, and every other
    entry of the state, stay as they are; and when the processing raises,
    at whatever step (request, polling, download, decryption, archive),
    its own cursor has not moved either. *)
Theorem cursor_moves_only_after_success (lib : Library) (platform : Platform)
    (subject_type : string) (s : Sys) :
  match InvoiceFetcher._fetch_for_subject_type lib platform subject_type s with
  | (Raise _, s') => state s' = state s
  | (Ok _, s') =>
      forall key, key <> InvoiceFetcher.state_key subject_type ->
                  state s' !! key = state s !! key
  end.
Proof.
  rewrite fetch_for_subject_type_steps.
  destruct (same_cursors_before_update lib platform subject_type s)
    as (Hstart & Hexport & Hwait).
  pose proof (only_talked_start_point platform subject_type s) as H0.
  destruct (start_point platform subject_type s) as [[date_from|e] s0];
    [|exact (proj1 H0)].
  specialize (Hstart date_from s0 eq_refl).
  destruct (KSeFClient.export_invoices _ _ _ _ _ _ _ s0) as [[response|e] s1] eqn:H1;
    pose proof (Hexport _ _ _ _ H1) as Hs1; [|congruence].
  destruct (InvoiceFetcher._wait_for_export_completion _ _ s1) as [[status|e] s2] eqn:H2;
    pose proof (Hwait _ _ _ _ H2) as Hs2; [|congruence].
  destruct (package status) as [package|].
  2:{ intros key _. congruence. }
  pose proof (same_cursors_process_package lib platform package
                (_encryption_key response) (_encryption_iv response) s2) as Hs3.
  destruct (InvoiceFetcher._process_package _ _ _ _ _ s2) as [[[]|e] s3];
    unfold same_cursors in Hs3; cbn [snd] in Hs3; [|congruence].
  destruct (update_continuation_point_cases subject_type package s3) as [->|[d ->]].
  - intros key _. congruence.
  - intros key Hkey. cbn. rewrite lookup_insert_ne by done. congruence.
Qed.

(** ** fetch_invoices.py: what a run does to the directory *)

Lemma keeps_file_contents_refl (s : Sys) : keeps_file_contents s s.
Proof. intros name content H. exact H. Qed.

Lemma keeps_file_contents_trans (s1 s2 s3 : Sys) :
  keeps_file_contents s1 s2 -> keeps_file_contents s2 s3 ->
  keeps_file_contents s1 s3.
Proof. intros H12 H23 name content H. exact (H23 _ _ (H12 _ _ H)). Qed.

Lemma keeps_file_contents_save_invoice (zf : ZipFile) (filename : string)
    (metadata : option (option (list string))) :
  respects keeps_file_contents (InvoiceFetcher._save_invoice zf filename metadata).
Proof.
  intros s name content Hname. rewrite save_invoice_cases. cbv zeta.
  destruct (bool_decide _); [done|].
  destruct (faktury s !! filename) eqn:Hf; [done|].
  destruct (zf_read zf filename) as [new|]; [|done].
  cbn. rewrite lookup_insert_ne; [done|]. intros ->. congruence.
Qed.

(** X9: a run never overwrites or removes an invoice: every file that is
    in the directory when [fetch_invoices] is called is there afterwards,
    with the same contents, whether the run returns or raises. *)
Theorem run_never_overwrites (lib : Library) (platform : Platform)
    (ksef_token context_nip : string) (s : Sys) (name : string)
    (content : list byte) :
  faktury s !! name = Some content ->
  faktury (InvoiceFetcher.fetch_invoices lib platform ksef_token context_nip s).2
    !! name = Some content.
Proof.
  revert s name content.
  change (respects keeps_file_contents
            (InvoiceFetcher.fetch_invoices lib platform ksef_token context_nip)).
  unfold InvoiceFetcher.fetch_invoices.
  apply (respects_bind _ keeps_file_contents_trans).
  { apply (respects_authenticate keeps_file_contents (fun _ => True)
             keeps_file_contents_refl keeps_file_contents_trans
             (fun _ _ s _ => keeps_file_contents_refl s) (fun _ => I)
             (fun _ s => keeps_file_contents_refl s)). }
  intros _. apply (respects_bind _ keeps_file_contents_trans).
  { apply (respects_fetch_all keeps_file_contents (fun _ => True)
             keeps_file_contents_refl keeps_file_contents_trans
             (fun _ _ s _ => keeps_file_contents_refl s)
             (fun _ _ _ _ _ => I) (fun _ => I) (fun _ => I) (fun _ => I)
             (fun _ s => keeps_file_contents_refl s)
             keeps_file_contents_save_invoice). }
  intros _. apply (respects_bind _ keeps_file_contents_trans).
  { intros s name content H. exact H. }
  intros _. unfold InvoiceFetcher._format_output.
  apply (respects_bind _ keeps_file_contents_trans);
    [|intros new]; intros s name content H; exact H.
Qed.

Lemma run_never_overwrites_witness :
  let s := set_faktury {["1111-AAAA.xml" := [x6f; x6c; x64]]} Fixture.fresh in
  faktury (InvoiceFetcher.fetch_invoices Fixture.lib (Fixture.run_platform 100)
             "token" "1234567890" s).2 !! "1111-AAAA.xml" = Some [x6f; x6c; x64].
Proof.
  intros s.
  exact (run_never_overwrites Fixture.lib (Fixture.run_platform 100)
           "token" "1234567890" s "1111-AAAA.xml" [x6f; x6c; x64] eq_refl).
Defined.

(** X10: only documents reach the disk.  Whatever [extract_invoices]
    writes is an entry of the archive whose name ends in [.xml], stored
    under that name with the contents the archive has for it; no other
    entry, the metadata among them, is ever written. *)
Theorem only_archive_documents_written (lib : Library) (zf : ZipFile) (s : Sys)
    (name : string) (content : list byte) :
  faktury (InvoiceFetcher.extract_invoices lib zf s).2 !! name = Some content ->
  faktury s !! name = Some content
  \/ (name ∈ namelist zf /\ endswith name ".xml" = true
      /\ zf_read zf name = Some content).
Proof.
  revert s name content.
  change (respects (written_from zf) (InvoiceFetcher.extract_invoices lib zf)).
  assert (Hrefl : forall s, written_from zf s s).
  { intros s name content H. by left. }
  assert (Htrans : forall s1 s2 s3,
             written_from zf s1 s2 -> written_from zf s2 s3 -> written_from zf s1 s3).
  { intros s1 s2 s3 H12 H23 name content H.
    destruct (H23 _ _ H) as [H2|H2]; [by apply H12|by right]. }
  unfold InvoiceFetcher.extract_invoices.
  apply (respects_bind _ Htrans).
  { intros s. destruct (read_metadata_pure lib zf s) as (r & Hr).
    rewrite Hr. apply Hrefl. }
  intros metadata. 
  assert (Hloop : forall names,
             (forall n, n ∈ names -> n ∈ namelist zf) ->
             respects (written_from zf)
               (for_each names (fun filename =>
                  if endswith filename ".xml"
                  then InvoiceFetcher._save_invoice zf filename metadata
                  else ret tt))).
  { induction names as [|filename names IH]; intros Hnames; cbn [for_each].
    { intros s. apply Hrefl. }
    apply (respects_bind _ Htrans).
    - destruct (endswith filename ".xml") eqn:Hxml; [|intros s; apply Hrefl].
      intros s name content. rewrite save_invoice_cases. cbv zeta.
      destruct (bool_decide _); [by left|].
      destruct (faktury s !! filename) eqn:Hf; [by left|].
      destruct (zf_read zf filename) as [new|] eqn:Hread; [|by left].
      cbn. intros Hlook. apply lookup_insert_Some in Hlook as [[<- <-]|[_ Hold]].
      + right. split; [apply Hnames; by left|done].
      + by left.
    - intros _. apply IH. intros n Hn. apply Hnames. by right. }
  by apply Hloop.
Qed.

Lemma only_archive_documents_written_witness :
  faktury (InvoiceFetcher.extract_invoices Fixture.lib Fixture.archive Fixture.fresh).2
    !! "_metadata.json" = None
  /\ (faktury Fixture.fresh !! "1111-AAAA.xml" = Some [x3c; x61; x2f; x3e]
      \/ ("1111-AAAA.xml" ∈ namelist Fixture.archive
          /\ endswith "1111-AAAA.xml" ".xml" = true
          /\ zf_read Fixture.archive "1111-AAAA.xml" = Some [x3c; x61; x2f; x3e])).
Proof.
  split; [vm_compute; reflexivity|].
  apply (only_archive_documents_written Fixture.lib Fixture.archive Fixture.fresh).
  vm_compute. reflexivity.
Defined.

(** A relation kept by every step is kept by the whole run. *)
Section RespectsRun.
Context (R : Sys -> Sys -> Prop).
Hypothesis R_refl : forall s, R s s.
Hypothesis R_trans : forall s1 s2 s3, R s1 s2 -> R s2 s3 -> R s1 s3.
Hypothesis R_advance : forall n evs s, R s (advance n evs s).
Hypothesis R_access_token : forall v s, R s (set_access_token v s).
Hypothesis R_state : forall v s, R s (set_state v s).
Hypothesis R_state_file : forall v s, R s (set_state_file v s).
Hypothesis R_save_invoice :
  forall zf filename metadata,
    respects R (InvoiceFetcher._save_invoice zf filename metadata).

Lemma respects_fetch_invoices (lib : Library) (platform : Platform)
    (ksef_token context_nip : string) :
  respects R (InvoiceFetcher.fetch_invoices lib platform ksef_token context_nip).
Proof.
  unfold InvoiceFetcher.fetch_invoices.
  apply (respects_bind _ R_trans).
  { apply (respects_authenticate R (fun _ => True) R_refl R_trans
             (fun n evs s _ => R_advance n evs s) (fun _ => I) R_access_token). }
  intros _. apply (respects_bind _ R_trans).
  { apply (respects_fetch_all R (fun _ => True) R_refl R_trans
             (fun n evs s _ => R_advance n evs s)
             (fun _ _ _ _ _ => I) (fun _ => I) (fun _ => I) (fun _ => I)
             R_state R_save_invoice). }
  intros _. apply (respects_bind _ R_trans).
  { intros s. apply R_state_file. }
  intros _. unfold InvoiceFetcher._format_output.
  apply (respects_bind _ R_trans); [|intros new]; intros s; apply R_refl.
Qed.

End RespectsRun.

(** What [fetch_invoices] returns when it returns: the number and the
    list of the new records of the final state. *)
Lemma fetch_invoices_output (lib : Library) (platform : Platform)
    (ksef_token context_nip : string) (s s' : Sys) (out : InvoiceFetcher.Output) :
  InvoiceFetcher.fetch_invoices lib platform ksef_token context_nip s = (Ok out, s') ->
  InvoiceFetcher.count out = length (new_invoices s')
  /\ InvoiceFetcher.invoices out = new_invoices s'
  /\ state_file s' = Some (state s').
Proof.
  unfold InvoiceFetcher.fetch_invoices. rewrite bind_run.
  destruct (KSeFClient.authenticate _ _ _ _ s) as [[b|e] s1]; [|discriminate].
  rewrite bind_run.
  destruct (for_each _ _ s1) as [[[]|e] s2]; [|discriminate].
  cbn. by intros [= <- <-].
Qed.

Lemma keeps_records_on_disk_save_invoice (zf : ZipFile) (name : string)
    (metadata : option (option (list string))) :
  respects keeps_records_on_disk (InvoiceFetcher._save_invoice zf name metadata).
Proof.
  intros s Hon. rewrite save_invoice_cases. cbv zeta.
  destruct (bool_decide _); [done|].
  destruct (faktury s !! name) eqn:Hf; [done|].
  destruct (zf_read zf name) as [content|]; [|done].
  intros r Hr. cbn in *. apply elem_of_app in Hr as [Hr|Hr].
  - apply lookup_insert_is_Some.
    destruct (decide (name = filename r)) as [|Hne]; [by left|].
    right. split; [done|]. by apply Hon.
  - apply list_elem_of_singleton in Hr. subst r. cbn.
    rewrite lookup_insert_eq. by eexists.
Qed.

(** X11: every invoice reported as new is on disk: in the state in which a
    run of a newly constructed fetcher ends, returning or raising, each
    record of the list of new invoices names a file of the directory. *)
Theorem new_invoices_are_on_disk (lib : Library) (platform : Platform)
    (ksef_token context_nip : string) (s : Sys) (r : InvoiceRecord) :
  let s' := (InvoiceFetcher.fetch_invoices lib platform ksef_token context_nip
               (InvoiceFetcher.__init__ s).2).2 in
  r ∈ new_invoices s' -> is_Some (faktury s' !! filename r).
Proof.
  intros s'. revert r.
  change (records_on_disk s').
  apply (respects_fetch_invoices keeps_records_on_disk).
  - intros s0 H. exact H.
  - intros s1 s2 s3 H12 H23 H. exact (H23 (H12 H)).
  - intros n evs s0 H. exact H.
  - intros v s0 H. exact H.
  - intros v s0 H. exact H.
  - intros v s0 H. exact H.
  - apply keeps_records_on_disk_save_invoice.
  - intros r Hr. cbn in Hr. by apply elem_of_nil in Hr.
Qed.

Lemma new_invoices_are_on_disk_witness :
  let s' := (InvoiceFetcher.fetch_invoices Fixture.lib (Fixture.run_platform 100)
               "token" "1234567890" (InvoiceFetcher.__init__ Fixture.sys0).2).2 in
  let r := {| ksefNumber := "1111-AAAA"; filename := "1111-AAAA.xml" |} in
  r ∈ new_invoices s' /\ is_Some (faktury s' !! filename r).
Proof.
  intros s' r.
  assert (Hr : r ∈ new_invoices s') by (vm_compute; left).
  split; [exact Hr|].
  exact (new_invoices_are_on_disk Fixture.lib (Fixture.run_platform 100)
           "token" "1234567890" Fixture.sys0 r Hr).
Defined.




(** ** fetch_invoices.py: the state file between runs *)

(** X13: a run can be resumed.  A fetcher constructed after a run that
    returned starts with exactly the cursors that run ended with; one
    constructed after a run that raised starts with the cursors a fetcher
    would have had before that run: those of the state file as it was, or
    none when there was no state file.  In both cases it starts with an
    empty seen-set and an empty list of new invoices. *)
Theorem next_run_resumes (lib : Library) (platform : Platform)
    (ksef_token context_nip : string) (s : Sys) :
  let '(r, s') :=
    InvoiceFetcher.fetch_invoices lib platform ksef_token context_nip s in
  let next := (InvoiceFetcher.__init__ s').2 in
  state next = match r with
               | Ok _ => state s'
               | Raise _ => default ∅ (state_file s)
               end
  /\ downloaded_invoices next = ∅ /\ new_invoices next = [].
Proof.
  pose proof (respects_fetch_invoices same_state_file) as Hfile.
  destruct (InvoiceFetcher.fetch_invoices lib platform ksef_token context_nip s)
    as [[out|e] s'] eqn:Hrun; cbn; (split; [|done]).
  - by rewrite (proj2 (proj2 (fetch_invoices_output _ _ _ _ _ _ _ Hrun))).
  - unfold InvoiceFetcher.fetch_invoices in Hrun. rewrite bind_run in Hrun.
    pose proof (same_state_file_authenticate lib platform ksef_token context_nip s)
      as Hauth.
    destruct (KSeFClient.authenticate _ _ _ _ s) as [[b|e1] s1].
    + rewrite bind_run in Hrun.
      pose proof (same_state_file_fetch_all lib platform
                    InvoiceFetcher.SUBJECT_TYPES s1) as Hroles.
      destruct (for_each _ _ s1) as [[[]|e2] s2]; [discriminate|].
      injection Hrun as _ <-. unfold same_state_file in *. cbn in *.
      by rewrite Hroles, Hauth.
    + injection Hrun as _ <-. unfold same_state_file in Hauth. cbn in Hauth.
      by rewrite Hauth.
Qed.

(** ** crypto.py: which certificate gives which key *)

Section PublicKeysFacts.
Context {PublicKey : Type} (load : string -> option PublicKey).

Lemma load_certificates_app (a : PublicKeys.Attrs) (l1 l2 : list PublicKeys.CertInfo) :
  PublicKeys.load_certificates load a (l1 ++ l2)
  = match PublicKeys.load_certificates load a l1 with
    | Ok a1 => PublicKeys.load_certificates load a1 l2
    | Raise e => Raise e
    end.
Proof.
  revert a. induction l1 as [|c l1 IH]; intros a; cbn; [done|].
  destruct (PublicKeys.load_certificate load a c); [apply IH|done].
Qed.

Lemma key_for_snoc (u : string) (l : list PublicKeys.CertInfo)
    (cert_info : PublicKeys.CertInfo) :
  PublicKeys.key_for load u (l ++ [cert_info])
  = if bool_decide (u ∈ default [] (PublicKeys.usage cert_info))
    then match PublicKeys.certificate cert_info with
         | Some certificate_b64 => load certificate_b64
         | None => None
         end
    else PublicKeys.key_for load u l.
Proof.
  unfold PublicKeys.key_for, PublicKeys.with_usage. rewrite filter_app.
  rewrite filter_cons, filter_nil.
  case_bool_decide as Hu.
  - rewrite decide_True by done. by rewrite last_snoc.
  - rewrite decide_False by done. by rewrite app_nil_r.
Qed.

Lemma load_certificates_keys (a : PublicKeys.Attrs)
    (certificates : list PublicKeys.CertInfo) :
  Forall (PublicKeys.loadable load) certificates ->
  PublicKeys.load_certificates load a certificates
  = Ok {| PublicKeys.token_public_key :=
            match PublicKeys.key_for load "KsefTokenEncryption" certificates with
            | Some k => Some k
            | None => PublicKeys.token_public_key a
            end;
          PublicKeys.symmetric_key_public_key :=
            match PublicKeys.key_for load "SymmetricKeyEncryption" certificates with
            | Some k => Some k
            | None => PublicKeys.symmetric_key_public_key a
            end |}.
Proof.
  induction certificates as [|cert_info l IH] using rev_ind; intros Hall.
  { cbn. by destruct a. }
  apply Forall_app in Hall as [Hl Hc]. rewrite Forall_singleton in Hc.
  rewrite load_certificates_app, (IH Hl). clear IH Hl.
  rewrite !key_for_snoc. cbn [PublicKeys.load_certificates].
  unfold PublicKeys.load_certificate.
  destruct Hc as (c & Hcert & Hload). rewrite Hcert.
  repeat case_bool_decide.
  - destruct Hload as [k Hk]; [by left|]. by rewrite Hk.
  - destruct Hload as [k Hk]; [by left|]. by rewrite Hk.
  - destruct Hload as [k Hk]; [by right|]. by rewrite Hk.
  - done.
Qed.

(** X15: which certificate gives which key.  When the request succeeds,
    every entry has its certificate and the entries with one of the two
    usages can be loaded, [_fetch_public_keys] takes each key from the last
    entry of the list that carries the usage; it raises when no entry
    carries the token usage, and, the token key found, when no entry
    carries the symmetric-key usage. *)
Theorem fetch_public_keys_last_wins (certificates : list PublicKeys.CertInfo) :
  Forall (PublicKeys.loadable load) certificates ->
  PublicKeys._fetch_public_keys load (Reply certificates)
  = match PublicKeys.key_for load "KsefTokenEncryption" certificates,
          PublicKeys.key_for load "SymmetricKeyEncryption" certificates with
    | None, _ =>
        Raise (Exception "Nie znaleziono certyfikatu do szyfrowania tokenów KSeF")
    | Some _, None =>
        Raise (Exception "Nie znaleziono certyfikatu do szyfrowania kluczy symetrycznych")
    | Some kt, Some ks =>
        Ok {| PublicKeys.token_public_key := Some kt;
              PublicKeys.symmetric_key_public_key := Some ks |}
    end.
Proof.
  intros Hall. unfold PublicKeys._fetch_public_keys.
  rewrite (load_certificates_keys _ _ Hall). cbn.
  destruct (PublicKeys.key_for load "KsefTokenEncryption" certificates); [|done].
  by destruct (PublicKeys.key_for load "SymmetricKeyEncryption" certificates).
Qed.

End PublicKeysFacts.

Lemma fetch_public_keys_last_wins_witness :
  let certificates :=
    [ {| PublicKeys.usage := Some ["KsefTokenEncryption"];
         PublicKeys.certificate := Some "A" |};
      {| PublicKeys.usage := Some ["SymmetricKeyEncryption"; "KsefTokenEncryption"];
         PublicKeys.certificate := Some "B" |};
      {| PublicKeys.usage := None; PublicKeys.certificate := Some "C" |} ] in
  PublicKeys._fetch_public_keys Some (Reply certificates)
  = Ok {| PublicKeys.token_public_key := Some "B";
          PublicKeys.symmetric_key_public_key := Some "B" |}.
Proof.
  intros certificates.
  etransitivity.
  - apply (fetch_public_keys_last_wins Some certificates).
    repeat constructor; eexists; (split; [reflexivity|intros _; by eexists]).
  - vm_compute. reflexivity.
Defined.

(** ** transform_invoices.py: the namespace and the stylesheet *)

Lemma append_empty (s : string) : "" +:+ s = s.
Proof. reflexivity. Qed.

Lemma append_String (a : ascii) (s1 s2 : string) :
  String a s1 +:+ s2 = String a (s1 +:+ s2).
Proof. reflexivity. Qed.

Lemma contains_app_r (c : ascii) (s1 s2 : string) :
  str_contains c (s1 +:+ String c s2) = true.
Proof.
  induction s1 as [|a s1 IH].
  - rewrite append_empty. cbn. by rewrite Ascii.eqb_refl.
  - rewrite append_String. cbn. by destruct (Ascii.eqb a c).
Qed.

Lemma split_head_app (c : ascii) (s1 s2 : string) :
  str_contains c s1 = false ->
  str_split_head c (s1 +:+ String c s2) = s1.
Proof.
  induction s1 as [|a s1 IH].
  - rewrite append_empty. cbn. by rewrite Ascii.eqb_refl.
  - rewrite append_String. cbn.
    destruct (Ascii.eqb a c); [done|]. intros H. by rewrite IH.
Qed.

Lemma contains_split_head (c : ascii) (s : string) :
  str_contains c (str_split_head c s) = false.
Proof.
  induction s as [|a s IH]; cbn; [done|].
  destruct (Ascii.eqb a c) eqn:Ha; cbn; [done|]. by rewrite Ha.
Qed.

Lemma contains_lstrip (c d : ascii) (s : string) :
  str_contains c s = false ->
  str_contains c (str_lstrip d s) = false.
Proof.
  induction s as [|a s IH]; cbn; [done|].
  destruct (Ascii.eqb a c) eqn:Hc; [done|]. intros H.
  destruct (Ascii.eqb a d); [by apply IH|]. cbn. by rewrite Hc.
Qed.

Lemma lstrip_head (c : ascii) (s rest : string) :
  str_lstrip c s <> String c rest.
Proof.
  induction s as [|a s IH]; cbn; [done|].
  destruct (Ascii.eqb a c) eqn:Ha; [done|].
  intros [= -> _]. by rewrite Ascii.eqb_refl in Ha.
Qed.

(** X16: [detect_namespace] reads the namespace off a tag in the notation
    [{namespace}local]: for a namespace without a closing brace that does
    not begin with an opening brace it returns that namespace, whatever the
    local name, further braces in it included.  And whatever the tag, a
    namespace it returns holds no closing brace and does not begin with an
    opening brace: leading opening braces are all stripped, and the tag is
    cut at its first closing brace. *)
Theorem detect_namespace_reads_clark_notation :
  (forall ns local : string,
      str_contains "}" ns = false ->
      (forall rest, ns <> String "{" rest) ->
      Transform.detect_namespace ("{" +:+ ns +:+ "}" +:+ local) = Some ns)
  /\ (forall tag ns : string,
      Transform.detect_namespace tag = Some ns ->
      str_contains "}" ns = false /\ forall rest, ns <> String "{" rest).
Proof.
  split.
  - intros ns local Hns Hhead. unfold Transform.detect_namespace.
    change ("{" +:+ ns +:+ "}" +:+ local)
      with (String "{" ns +:+ String "}" local).
    rewrite contains_app_r. f_equal.
    rewrite split_head_app by (cbn; exact Hns).
    cbn. destruct ns as [|a ns]; [done|]. cbn.
    destruct (Ascii.eqb a "{") eqn:Ha; [|done].
    apply Ascii.eqb_eq in Ha. subst a. by destruct (Hhead ns).
  - intros tag ns. unfold Transform.detect_namespace.
    destruct (str_contains "}" tag); [|done].
    intros [= <-]. split.
    + apply contains_lstrip, contains_split_head.
    + intros rest. apply lstrip_head.
Qed.

Lemma detect_namespace_reads_clark_notation_witness :
  Transform.detect_namespace "{http://crd.gov.pl/wzor/2025/06/25/13775/}Faktura"
  = Some "http://crd.gov.pl/wzor/2025/06/25/13775/".
Proof.
  apply (proj1 detect_namespace_reads_clark_notation
           "http://crd.gov.pl/wzor/2025/06/25/13775/" "Faktura").
  - reflexivity.
  - intros rest. discriminate.
Defined.

(** X17: [select_xslt] returns only a stylesheet of the table that exists:
    whatever it returns is the entry of [NAMESPACE_XSLT_MAP] for the
    namespace given, one of the two stylesheets under [xslt/], and is on
    disk at the time of the call.  A root element without a namespace (a
    tag without closing brace) is refused as an unknown namespace,
    the message naming it [None], whatever is on disk. *)
Theorem select_xslt_returns_existing_stylesheet (os_path_exists : string -> bool) :
  (forall (namespace : option string) (xslt_path : string),
      Transform.select_xslt os_path_exists namespace = inr xslt_path ->
      os_path_exists xslt_path = true
      /\ (exists ns, namespace = Some ns
                     /\ Transform.NAMESPACE_XSLT_MAP !! ns = Some xslt_path)
      /\ (xslt_path = "xslt/kseffaktura_fa(3).xsl"
          \/ xslt_path = "xslt/kseffaktura.xsl"))
  /\ (forall tag : string,
      str_contains "}" tag = false ->
      Transform.select_xslt os_path_exists (Transform.detect_namespace tag)
      = inl (Transform.ValueError "Nieznany namespace: None")).
Proof.
  split.
  - intros namespace xslt_path. unfold Transform.select_xslt.
    destruct namespace as [ns|]; cbv zeta; cbn [get_truthy negb];
      [|discriminate].
    destruct (Transform.NAMESPACE_XSLT_MAP !! ns) as [p|] eqn:Hp;
      cbn [get_truthy negb from_option]; unfold id; [|discriminate].
    destruct (negb (str_truthy p)); [discriminate|].
    destruct (os_path_exists p) eqn:Hex; cbn [negb]; [|discriminate].
    intros [= <-]. split; [done|]. split; [by exists ns|].
    unfold Transform.NAMESPACE_XSLT_MAP in Hp.
    apply lookup_insert_Some in Hp as [[_ <-]|[_ Hp]]; [by left|].
    apply lookup_singleton_Some in Hp as [_ <-]. by right.
  - intros tag Htag. unfold Transform.detect_namespace. by rewrite Htag.
Qed.

Lemma select_xslt_returns_existing_stylesheet_witness :
  Transform.select_xslt (fun _ => true)
    (Transform.detect_namespace "{http://crd.gov.pl/wzor/2023/06/29/12648/}Faktura")
  = inr "xslt/kseffaktura.xsl"
  /\ (true = true
      /\ (exists ns,
            Transform.detect_namespace "{http://crd.gov.pl/wzor/2023/06/29/12648/}Faktura"
            = Some ns
            /\ Transform.NAMESPACE_XSLT_MAP !! ns = Some "xslt/kseffaktura.xsl")
      /\ ("xslt/kseffaktura.xsl" = "xslt/kseffaktura_fa(3).xsl"
          \/ "xslt/kseffaktura.xsl" = "xslt/kseffaktura.xsl")).
Proof.
  assert (Hrun : Transform.select_xslt (fun _ => true)
            (Transform.detect_namespace
               "{http://crd.gov.pl/wzor/2023/06/29/12648/}Faktura")
          = inr "xslt/kseffaktura.xsl") by (vm_compute; reflexivity).
  split; [exact Hrun|].
  exact (proj1 (select_xslt_returns_existing_stylesheet (fun _ => true)) _ _ Hrun).
Defined.

(** ** fetch_invoices.py: the identifier of a document *)

Lemma replace_xml_dot_free (stem : string) :
  str_contains "." stem = false ->
  py_replace ".xml" "" (stem +:+ ".xml") = stem.
Proof.
  unfold py_replace. induction stem as [|a stem IH]; [reflexivity|].
  rewrite append_String. cbn [str_contains].
  destruct (Ascii.eqb a ".") eqn:Ha; [discriminate|]. intros Hstem.
  cbn [replace_from String.prefix].
  destruct (ascii_dec "." a) as [<-|_]; [discriminate|].
  by rewrite (IH Hstem).
Qed.

Lemma metadata_ksef_number_names_file (metadata : option (option (list string)))
    (filename k : string) :
  InvoiceFetcher.metadata_ksef_number metadata filename = Some k -> k +:+ ".xml" = filename.
Proof.
  unfold InvoiceFetcher.metadata_ksef_number.
  destruct metadata as [[invoices|]|]; [|discriminate..].
  intros Hfind. apply find_some in Hfind as [_ Heq].
  by apply String.eqb_eq in Heq.
Qed.

(** X18: the identifier names the file.  For a document whose name is a
    stem without a dot followed by [.xml], the identifier that
    [_save_invoice] derives, from the metadata or from the name, gives the
    name back when [.xml] is appended; so two such documents of different
    names never share an identifier, whatever the metadata. *)
Theorem identifier_names_the_file (metadata : option (option (list string)))
    (stem : string) :
  str_contains "." stem = false ->
  InvoiceFetcher.derive_ksef_number metadata (stem +:+ ".xml") +:+ ".xml"
  = stem +:+ ".xml"
  /\ forall stem' : string,
       str_contains "." stem' = false ->
       InvoiceFetcher.derive_ksef_number metadata (stem' +:+ ".xml")
       = InvoiceFetcher.derive_ksef_number metadata (stem +:+ ".xml") ->
       stem' +:+ ".xml" = stem +:+ ".xml".
Proof.
  assert (Hname : forall s, str_contains "." s = false ->
            InvoiceFetcher.derive_ksef_number metadata (s +:+ ".xml") +:+ ".xml"
            = s +:+ ".xml").
  { intros s Hs. unfold InvoiceFetcher.derive_ksef_number.
    destruct (InvoiceFetcher.metadata_ksef_number metadata (s +:+ ".xml"))
      as [k|] eqn:Hk; cbn [get_truthy].
    - destruct (str_truthy k).
      + cbn [from_option]. unfold id.
        by apply (metadata_ksef_number_names_file metadata).
      + by rewrite replace_xml_dot_free.
    - by rewrite replace_xml_dot_free. }
  intros Hstem. split; [by apply Hname|].
  intros stem' Hstem' Heq.
  by rewrite <- (Hname stem' Hstem'), Heq, (Hname stem Hstem).
Qed.

Lemma identifier_names_the_file_witness :
  InvoiceFetcher.derive_ksef_number (Some (Some ["2222-BBBB"; "1111-AAAA"]))
    ("1111-AAAA" +:+ ".xml") +:+ ".xml" = "1111-AAAA" +:+ ".xml".
Proof.
  exact (proj1 (identifier_names_the_file (Some (Some ["2222-BBBB"; "1111-AAAA"]))
                  "1111-AAAA" eq_refl)).
Defined.
